(** * json-cpp: the JsonValue hierarchy and its serialisation

    A shallow embedding of [main.cpp]: the five classes derived from
    [JsonValue], the two [add] methods, the virtual [toString] and [main].

    Definitions come first.
    - [Stream], [push_back], [UnorderedMap]: what the code asks of the C++
      library, namely a write-only [std::stringstream] in its default
      formatting state, [std::vector::push_back], and the lookup and
      [insert] of [std::unordered_map].
    - The value layer: a [JsonValue] owns its children through
      [std::unique_ptr], so a value is a finite tree; [toString] and the
      two [add] methods are functions on such trees.
    - [Mem]: the same methods, and [main], as state-passing programs over
      a store of objects addressed by pointers and the text sent to
      [std::cout]; reading and writing are explicit.
    - [repr]: when a store holds a given tree.

    Theorems follow: facts about strings and containers, the agreement of
    the two layers, the program's own examples, and the properties of the
    serialisation. *)

From Stdlib Require Import ZArith Floats Ascii String List Permutation Lia.
From stdpp Require Import base gmap strings list.

Set Warnings "-inexact-float,-register-all".

(** ** The library side: [std::stringstream], default formatting *)

Module Stream.

Local Open Scope Z_scope.

(** A [std::stringstream] that is only written to and read back once
    with [str()]: its state is the text inserted so far. *)
Definition stringstream := string.

Definition empty : stringstream := EmptyString.
Definition str (ss : stringstream) : string := ss.

(** [ss << c] for a [char]. *)
Definition put_char (ss : stringstream) (c : ascii) : stringstream :=
  ss +:+ String c EmptyString.

(** [ss << s] for a [std::string]. *)
Definition put_string (ss : stringstream) (s : string) : stringstream :=
  ss +:+ s.

(** [ss << std::boolalpha << b]. *)
Definition put_boolalpha (ss : stringstream) (b : bool) : stringstream :=
  ss +:+ (if b then "true" else "false")%string.

(** *** [ss << d] for a [double]

    The code inserts the number into a stream it has just made, so no
    flag of [floatfield] is set and the precision is the default 6.  The
    C++ standard then has [std::num_put] print as [printf] does with the
    conversion [%g]: the value is rounded to [precision] significant
    decimal digits, which gives a decimal exponent [X]; for
    [-4 <= X < precision] the fixed style is used and the scientific
    style otherwise; trailing zeros of the fraction, and a decimal point
    left bare, are dropped.  A binary64 is the rational [m * 2^e], so the
    rounding (to nearest, ties to even) is computed exactly. *)

Definition precision : nat := 6.

Definition digit (d : Z) : ascii := ascii_of_nat (48 + Z.to_nat d).

(** The [width] low decimal digits of [n], most significant first. *)
Fixpoint zdigits (width : nat) (n : Z) (acc : string) : string :=
  match width with
  | O => acc
  | S w => zdigits w (n / 10) (String (digit (n mod 10)) acc)
  end.

(** Number of decimal digits of [n] ([0] has none). *)
Fixpoint ndigits (fuel : nat) (n : Z) : Z :=
  match fuel with
  | O => 0
  | S fuel => if n <=? 0 then 0 else 1 + ndigits fuel (n / 10)
  end.

Definition decimal_length (n : Z) : Z :=
  ndigits (S (Z.to_nat (Z.log2 n))) n.

(** [10^x <= N / D], for positive [N] and [D]. *)
Definition pow10_le (x N D : Z) : bool :=
  if 0 <=? x then 10 ^ x * D <=? N else D <=? N * 10 ^ (- x).

(** The largest [x] with [10^x <= N / D]. *)
Definition floor_log10 (N D : Z) : Z :=
  let x := decimal_length N - decimal_length D in
  if pow10_le (x + 1) N D then x + 1
  else if pow10_le x N D then x else x - 1.

(** [N / D] rounded to the nearest integer, ties to even. *)
Definition round_half_even (N D : Z) : Z :=
  let q := N / D in
  let r := N mod D in
  if (D <? 2 * r) || ((D =? 2 * r) && Z.odd q) then q + 1 else q.

(** [N / D * 10^k] rounded to an integer. *)
Definition scaled (N D k : Z) : Z :=
  if 0 <=? k then round_half_even (N * 10 ^ k) D
  else round_half_even N (D * 10 ^ (- k)).

(** The [P] significant digits [q] and the decimal exponent [X] of
    [N / D]: [10^(P-1) <= q < 10^P] and [N / D] rounds to
    [q * 10^(X - P + 1)]. *)
Definition significand (P : Z) (N D : Z) : Z * Z :=
  let X0 := floor_log10 N D in
  let q := scaled N D (P - 1 - X0) in
  if 10 ^ P <=? q then (10 ^ (P - 1), X0 + 1) else (q, X0).

Fixpoint strip_zeros (s : string) : string :=
  match s with
  | EmptyString => EmptyString
  | String c s' =>
      match strip_zeros s' with
      | EmptyString => if Ascii.eqb c "0" then EmptyString else String c EmptyString
      | r => String c r
      end
  end.

(** The fraction after the decimal point; nothing when it is empty. *)
Definition fraction (digits : string) : string :=
  match strip_zeros digits with
  | EmptyString => EmptyString
  | r => String "." r
  end.

Fixpoint zeros (n : nat) : string :=
  match n with
  | O => EmptyString
  | S n => String "0" (zeros n)
  end.

(** The exponent of the scientific style: a sign and two digits at least. *)
Definition exponent (X : Z) : string :=
  let a := Z.abs X in
  String "e" (String (if X <? 0 then "-"%char else "+"%char)
    (zdigits (Nat.max 2 (Z.to_nat (decimal_length a))) a EmptyString)).

Definition format_g (P : nat) (N D : Z) : string :=
  let '(q, X) := significand (Z.of_nat P) N D in
  let ds := zdigits P q EmptyString in
  if (-4 <=? X) && (X <? Z.of_nat P) then
    if 0 <=? X then
      let i := S (Z.to_nat X) in
      substring 0 i ds +:+ fraction (substring i (P - i) ds)
    else
      String "0" (fraction (zeros (Z.to_nat (- X - 1)) +:+ ds))
  else
    substring 0 1 ds +:+ fraction (substring 1 (P - 1) ds) +:+ exponent X.

Definition sign (s : bool) : string :=
  if s then "-"%string else EmptyString.

Definition double_to_string (d : float) : string :=
  match Prim2SF d with
  | S754_zero s => sign s +:+ "0"
  | S754_infinity s => sign s +:+ "inf"
  | S754_nan => "nan"%string
  | S754_finite s m e =>
      sign s +:+
      (if 0 <=? e then format_g precision (Z.pos m * 2 ^ e) 1
       else format_g precision (Z.pos m) (2 ^ (- e)))
  end.

Definition put_double (ss : stringstream) (d : float) : stringstream :=
  ss +:+ double_to_string d.

End Stream.

(** ** The library side: [std::vector] and [std::unordered_map] *)

(** [values_.push_back(x)] on a vector seen as the list of its elements. *)
Definition push_back {A : Type} (v : list A) (x : A) : list A := v ++ [x].

Module UnorderedMap.

(** A [std::unordered_map<std::string, V>] is seen as the sequence its
    iterators run through, from [begin()] to [end()].  Where a new node
    lands in that sequence, and how a rehash rearranges the others, is the
    library's business: a [placement] stands for it, and is only bound to
    keep every node exactly once. *)
Record placement : Type := Placement {
  link : forall V : Type, list (string * V) -> string -> V -> list (string * V);
  link_perm : forall V (m : list (string * V)) k v, Permutation (link V m k v) ((k, v) :: m)
}.

Section Operations.
Context {V : Type}.

Definition t : Type := list (string * V).

Definition empty : t := [].

Fixpoint find (m : t) (k : string) : option V :=
  match m with
  | [] => None
  | (k', v) :: m' => if String.eqb k k' then Some v else find m' k
  end.

Definition size (m : t) : nat := length m.

(** [m.insert({k, v})]: nothing happens when [k] is already a key. *)
Definition insert (pl : placement) (m : t) (k : string) (v : V) : t :=
  match find m k with
  | Some _ => m
  | None => link pl V m k v
  end.
End Operations.

(** New nodes are linked at the head of the sequence. *)
Program Definition at_front : placement :=
  {| link := fun V m k v => (k, v) :: m |}.
Next Obligation. intros. apply Permutation_refl. Qed.

(** New nodes are linked at the tail of the sequence. *)
Program Definition at_back : placement :=
  {| link := fun V m k v => m ++ [(k, v)] |}.
Next Obligation.
  intros. apply Permutation_sym, Permutation_cons_append.
Qed.

End UnorderedMap.

(** ** The classes *)

(** The five classes that derive from [JsonValue], each with its private
    fields; a [std::unique_ptr<JsonValue>] field is the owned value. *)
Inductive JsonValue : Type :=
| JsonNull
| JsonString (value_ : string)
| JsonNumber (value_ : float)
| JsonBoolean (value_ : bool)
| JsonObject (properties_ : list (string * JsonValue))
| JsonArray (values_ : list JsonValue).

Definition dquote : ascii := ascii_of_nat 34.

(** [JsonValue::toString] with its five overrides.  The range-based [for]
    loops are folds over the container's sequence, threading the stream. *)
Fixpoint toString (this : JsonValue) : string :=
  match this with
  | JsonNull => "null"
  | JsonString value_ =>
      String dquote EmptyString +:+ value_ +:+ String dquote EmptyString
  | JsonNumber value_ =>
      let ss := Stream.empty in
      let ss := Stream.put_double ss value_ in
      Stream.str ss
  | JsonBoolean value_ =>
      let ss := Stream.empty in
      let ss := Stream.put_boolalpha ss value_ in
      Stream.str ss
  | JsonObject properties_ =>
      let ss := Stream.empty in
      let ss := Stream.put_char ss "{" in
      let ss :=
        fold_left
          (fun ss '(key, value) =>
             Stream.put_char
               (Stream.put_string
                  (Stream.put_char (Stream.put_string ss key) ":")
                  (toString value))
               ",")
          properties_ ss in
      let ss := Stream.put_char ss "}" in
      Stream.str ss
  | JsonArray values_ =>
      let ss := Stream.empty in
      let ss := Stream.put_char ss "[" in
      let ss :=
        fold_left
          (fun ss value =>
             Stream.put_char (Stream.put_string ss (toString value)) ",")
          values_ ss in
      let ss := Stream.put_char ss "]" in
      Stream.str ss
  end.

(** [JsonArray::add], on the field [values_] of the receiver. *)
Definition JsonArray_add (values_ : list JsonValue) (value : JsonValue)
  : list JsonValue :=
  push_back values_ value.

(** [JsonObject::add], on the field [properties_] of the receiver. *)
Definition JsonObject_add (pl : UnorderedMap.placement)
    (properties_ : list (string * JsonValue)) (name : string) (value : JsonValue)
  : list (string * JsonValue) :=
  UnorderedMap.insert pl properties_ name value.

(** One [add] call, with its two arguments as a pair. *)
Definition JsonObject_add_entry (pl : UnorderedMap.placement)
    (properties_ : list (string * JsonValue)) (entry : string * JsonValue)
  : list (string * JsonValue) :=
  JsonObject_add pl properties_ entry.1 entry.2.

(** The object built from an empty one by a run of [add] calls. *)
Definition JsonObject_adds (pl : UnorderedMap.placement)
    (adds : list (string * JsonValue)) : list (string * JsonValue) :=
  fold_left (JsonObject_add_entry pl) adds UnorderedMap.empty.

(** The array built from an empty one by a run of [add] calls. *)
Definition JsonArray_adds (adds : list JsonValue) : list JsonValue :=
  fold_left JsonArray_add adds [].

(** ** The specification's wording of the two composite renderings *)

Fixpoint flatten (l : list string) : string :=
  match l with
  | [] => EmptyString
  | s :: l => s +:+ flatten l
  end.

(** An element of an array: its text, then a comma. *)
Definition element_text (value : JsonValue) : string :=
  toString value +:+ ",".

(** An entry of an object: the bare key, a colon, the value's text, a comma. *)
Definition entry_text (entry : string * JsonValue) : string :=
  entry.1 +:+ ":" +:+ toString entry.2 +:+ ",".

(** * The store layer *)

Module Mem.

(** A [std::unique_ptr<JsonValue>] that is not null is the address of an
    object in the store. *)
Definition ptr : Type := nat.

(** An object of one of the five classes, with its fields. *)
Inductive object : Type :=
| Null
| Str (value_ : string)
| Number (value_ : float)
| Boolean (value_ : bool)
| Object (properties_ : list (string * ptr))
| Array (values_ : list ptr).

(** All that a statement of the program can change: the objects, and the
    characters sent to [std::cout].  A [std::stringstream] local to a call
    is not part of it: it is a value of the call.  Objects are never taken
    out of the store: destruction is not modelled. *)
Record state : Type := State {
  objects : gmap ptr object;
  cout : string
}.

Definition initial : state := State ∅ EmptyString.

(** What a call comes to: it returns a value and leaves a state; or it
    follows a pointer to no object, or to an object of another class than
    its receiver's; or the recursion budget of the model ran out before it
    returned. *)
Inductive outcome (A : Type) : Type :=
| Ret (a : A) (st : state)
| Fault
| OutOfFuel.
Arguments Ret {A} a st.
Arguments Fault {A}.
Arguments OutOfFuel {A}.

Definition M (A : Type) : Type := state -> outcome A.

Definition ret {A} (a : A) : M A := fun st => Ret a st.

Definition bind {A B} (m : M A) (k : A -> M B) : M B :=
  fun st =>
    match m st with
    | Ret a st' => k a st'
    | Fault => Fault
    | OutOfFuel => OutOfFuel
    end.

Notation "'let!' x ':=' m 'in' k" := (bind m (fun x => k))
  (at level 10, x name, m at level 100, k at level 200).

Definition fault {A} : M A := fun _ => Fault.
Definition out_of_fuel {A} : M A := fun _ => OutOfFuel.

(** Reading the object behind a pointer. *)
Definition load (p : ptr) : M object :=
  fun st => match objects st !! p with Some o => Ret o st | None => Fault end.

(** Overwriting the object behind a pointer. *)
Definition store (p : ptr) (o : object) : M unit :=
  fun st => Ret tt (State (<[p := o]> (objects st)) (cout st)).

(** [std::make_unique]: a new object at an address not in use. *)
Definition make_unique (o : object) : M ptr :=
  fun st =>
    let p := fresh (dom (objects st)) in
    Ret p (State (<[p := o]> (objects st)) (cout st)).

(** [std::cout << s]. *)
Definition print (s : string) : M unit :=
  fun st => Ret tt (State (objects st) (Stream.put_string (cout st) s)).

(** A range-based [for] over [l] whose body updates the local [s]. *)
Fixpoint for_each {A S} (body : S -> A -> M S) (l : list A) (s : S) : M S :=
  match l with
  | [] => ret s
  | x :: l => let! s' := body s x in for_each body l s'
  end.

(** [this->toString()], dispatched on the class of the object at [this]. *)
Fixpoint toString (fuel : nat) (this : ptr) : M string :=
  match fuel with
  | O => out_of_fuel
  | S fuel =>
      let! o := load this in
      match o with
      | Null => ret "null"
      | Str value_ =>
          ret (String dquote EmptyString +:+ value_ +:+ String dquote EmptyString)
      | Number value_ =>
          let ss := Stream.empty in
          let ss := Stream.put_double ss value_ in
          ret (Stream.str ss)
      | Boolean value_ =>
          let ss := Stream.empty in
          let ss := Stream.put_boolalpha ss value_ in
          ret (Stream.str ss)
      | Object properties_ =>
          let ss := Stream.empty in
          let ss := Stream.put_char ss "{" in
          let! ss := for_each
                  (fun ss '(key, value) =>
                     let! s := toString fuel value in
                     ret (Stream.put_char
                            (Stream.put_string
                               (Stream.put_char (Stream.put_string ss key) ":")
                               s)
                            ","))
                  properties_ ss in
          let ss := Stream.put_char ss "}" in
          ret (Stream.str ss)
      | Array values_ =>
          let ss := Stream.empty in
          let ss := Stream.put_char ss "[" in
          let! ss := for_each
                  (fun ss value =>
                     let! s := toString fuel value in
                     ret (Stream.put_char (Stream.put_string ss s) ","))
                  values_ ss in
          let ss := Stream.put_char ss "]" in
          ret (Stream.str ss)
      end
  end.

(** [this->add(std::move(value))] on a [JsonArray]. *)
Definition JsonArray_add (this : ptr) (value : ptr) : M unit :=
  let! o := load this in
  match o with
  | Array values_ => store this (Array (push_back values_ value))
  | _ => fault
  end.

(** [this->add(std::move(name), std::move(value))] on a [JsonObject]. *)
Definition JsonObject_add (pl : UnorderedMap.placement)
    (this : ptr) (name : string) (value : ptr) : M unit :=
  let! o := load this in
  match o with
  | Object properties_ =>
      store this (Object (UnorderedMap.insert pl properties_ name value))
  | _ => fault
  end.

(** [main], for a given placement policy of the hash table.  The tree it
    builds has depth 2, so a budget of 3 lets [toString] return. *)
Definition main (pl : UnorderedMap.placement) : M unit :=
  let! root := make_unique (Object []) in
  let! a := make_unique (Str "s1") in
  let! u := JsonObject_add pl root "a" a in
  let! b := make_unique (Number 1.1%float) in
  let! u := JsonObject_add pl root "b" b in
  let! c := make_unique (Boolean true) in
  let! u := JsonObject_add pl root "c" c in
  let! d := make_unique (Boolean false) in
  let! u := JsonObject_add pl root "d" d in
  let! e := make_unique Null in
  let! u := JsonObject_add pl root "e" e in
  let! obj := make_unique (Object []) in
  let! f := make_unique (Str "s2") in
  let! u := JsonObject_add pl obj "f" f in
  let! g := make_unique (Number 2.2%float) in
  let! u := JsonObject_add pl obj "g" g in
  let! u := JsonObject_add pl root "h" obj in
  let! arr := make_unique (Array []) in
  let! s3 := make_unique (Str "s3") in
  let! u := JsonArray_add arr s3 in
  let! n := make_unique (Number 3.3%float) in
  let! u := JsonArray_add arr n in
  let! u := JsonObject_add pl root "i" arr in
  let! text := toString 3 root in
  let! u := print text in
  print (String (ascii_of_nat 10) EmptyString).

End Mem.

(** ** Stores that hold a tree *)

Section All2.
Context {A B : Type} (R : A -> B -> Prop).

(** [R] relates the two lists element by element. *)
Fixpoint all2 (l : list A) (l' : list B) : Prop :=
  match l, l' with
  | [], [] => True
  | a :: l, b :: l' => R a b /\ all2 l l'
  | _, _ => False
  end.

End All2.

(** The objects reachable from [p] in the store [h] are laid out as the
    tree [t]: the object at [p] is of the class of [t], with the fields of
    [t], and each pointer it owns leads to the matching child.  A tree is
    finite, so no chain of owned pointers from [p] comes back to an object
    it went through. *)
Fixpoint repr (h : gmap Mem.ptr Mem.object) (t : JsonValue) (p : Mem.ptr) : Prop :=
  match t with
  | JsonNull => h !! p = Some Mem.Null
  | JsonString value_ => h !! p = Some (Mem.Str value_)
  | JsonNumber value_ => h !! p = Some (Mem.Number value_)
  | JsonBoolean value_ => h !! p = Some (Mem.Boolean value_)
  | JsonObject properties_ =>
      exists ps,
        h !! p = Some (Mem.Object ps)
        /\ all2 (fun e e' => e.1 = e'.1 /\ repr h e.2 e'.2) properties_ ps
  | JsonArray values_ =>
      exists ps,
        h !! p = Some (Mem.Array ps) /\ all2 (fun value q => repr h value q) values_ ps
  end.

(** The longest chain of owned pointers below the root of a tree. *)
Fixpoint depth (t : JsonValue) : nat :=
  match t with
  | JsonObject properties_ => S (max_list (map (fun e => depth e.2) properties_))
  | JsonArray values_ => S (max_list (map depth values_))
  | _ => 0
  end.

Section JsonValueInduction.
Variable P : JsonValue -> Prop.
Hypothesis HNull : P JsonNull.
Hypothesis HString : forall value_, P (JsonString value_).
Hypothesis HNumber : forall value_, P (JsonNumber value_).
Hypothesis HBoolean : forall value_, P (JsonBoolean value_).
Hypothesis HObject :
  forall properties_, Forall (fun e => P e.2) properties_ -> P (JsonObject properties_).
Hypothesis HArray : forall values_, Forall P values_ -> P (JsonArray values_).

(** Induction on a tree, with the hypothesis for every child of a composite. *)
Fixpoint JsonValue_tree_ind (t : JsonValue) : P t :=
  match t with
  | JsonNull => HNull
  | JsonString value_ => HString value_
  | JsonNumber value_ => HNumber value_
  | JsonBoolean value_ => HBoolean value_
  | JsonObject properties_ =>
      HObject properties_
        ((fix children (l : list (string * JsonValue)) : Forall (fun e => P e.2) l :=
            match l with
            | [] => @List.Forall_nil _ _
            | e :: l => @List.Forall_cons _ _ e l (JsonValue_tree_ind e.2) (children l)
            end) properties_)
  | JsonArray values_ =>
      HArray values_
        ((fix children (l : list JsonValue) : Forall P l :=
            match l with
            | [] => @List.Forall_nil _ _
            | value :: l => @List.Forall_cons _ _ value l (JsonValue_tree_ind value) (children l)
            end) values_)
  end.

End JsonValueInduction.

(** ** The program's own examples *)

(** Writes a text that holds double quotes with apostrophes in their place. *)
Definition with_dquotes (s : string) : string :=
  string_of_list_ascii
    (map (fun c => if Ascii.eqb c "'" then dquote else c) (list_ascii_of_string s)).

Definition newline : string := String (ascii_of_nat 10) EmptyString.

(** The entries [main] adds to [root], in the order of the calls. *)
Definition main_entries : list (string * JsonValue) :=
  [ ("a", JsonString "s1");
    ("b", JsonNumber 1.1%float);
    ("c", JsonBoolean true);
    ("d", JsonBoolean false);
    ("e", JsonNull);
    ("h", JsonObject [("f", JsonString "s2"); ("g", JsonNumber 2.2%float)]);
    ("i", JsonArray (JsonArray_adds [JsonString "s3"; JsonNumber 3.3%float])) ].

(** Scenario 3 on the store: [make_unique<JsonArray>()], then two [add]
    calls on freshly made values.  The result is the pointer to the array. *)
Definition scenario_array_program : Mem.M Mem.ptr :=
  Mem.bind (Mem.make_unique (Mem.Array [])) (fun arr =>
  Mem.bind (Mem.make_unique (Mem.Str "s3")) (fun s3 =>
  Mem.bind (Mem.JsonArray_add arr s3) (fun _ =>
  Mem.bind (Mem.make_unique (Mem.Number 3.3%float)) (fun n =>
  Mem.bind (Mem.JsonArray_add arr n) (fun _ =>
  Mem.ret arr))))).

Definition scenario_array_state : Mem.state :=
  match scenario_array_program Mem.initial with
  | Mem.Ret _ st => st
  | _ => Mem.initial
  end.

Definition scenario_array_tree : JsonValue :=
  JsonArray (JsonArray_add (JsonArray_add [] (JsonString "s3")) (JsonNumber 3.3%float)).

(** A store no run of the constructors can build: an array that owns itself. *)
Definition cyclic_state : Mem.state :=
  Mem.State {[ 0 := Mem.Array [0] ]} EmptyString.

(** ** Ownership in the store *)

(** The pointers an object holds. *)
Definition children (o : Mem.object) : list Mem.ptr :=
  match o with
  | Mem.Object properties_ => map snd properties_
  | Mem.Array values_ => values_
  | _ => []
  end.

(** [q] is [p], or an object that the object at [p] owns, directly or
    through objects it owns. *)
Inductive reach (h : gmap Mem.ptr Mem.object) : Mem.ptr -> Mem.ptr -> Prop :=
| reach_here p : reach h p p
| reach_child p o c q :
    h !! p = Some o -> In c (children o) -> reach h c q -> reach h p q.

(** Two entries with the same key and related values. *)
Definition keyed {A B : Type} (Q : A -> B -> Prop)
    (e : string * A) (e' : string * B) : Prop :=
  e.1 = e'.1 /\ Q e.2 e'.2.

(** A placement looks at keys only: it places pointers to values as it
    places the values. *)
Definition natural (pl : UnorderedMap.placement) : Prop :=
  forall (V W : Type) (f : V -> W) (m : list (string * V)) (k : string) (v : V),
    UnorderedMap.link pl W (map (fun e => (e.1, f e.2)) m) k (f v) =
    map (fun e => (e.1, f e.2)) (UnorderedMap.link pl V m k v).

(** ** The store that [main] builds *)

(** The entries a run of [add] calls leaves in an object of the store. *)
Definition pointer_adds (pl : UnorderedMap.placement)
    (adds : list (string * Mem.ptr)) : list (string * Mem.ptr) :=
  fold_left (fun m e => UnorderedMap.insert pl m e.1 e.2) adds [].

(** The objects [main] has made when it calls [toString]: [root] at 0,
    [obj] at 6, [arr] at 9, the leaves in between. *)
Definition main_store (pl : UnorderedMap.placement) : gmap Mem.ptr Mem.object :=
  list_to_map
    [ (0, Mem.Object
            (pointer_adds pl
               [("a", 1); ("b", 2); ("c", 3); ("d", 4); ("e", 5); ("h", 6); ("i", 9)]));
      (1, Mem.Str "s1");
      (2, Mem.Number 1.1%float);
      (3, Mem.Boolean true);
      (4, Mem.Boolean false);
      (5, Mem.Null);
      (6, Mem.Object (pointer_adds pl [("f", 7); ("g", 8)]));
      (7, Mem.Str "s2");
      (8, Mem.Number 2.2%float);
      (9, Mem.Array [10; 11]);
      (10, Mem.Str "s3");
      (11, Mem.Number 3.3%float) ].

(** The calls [main] makes on [obj] and on [root], as trees. *)
Definition main_obj_adds : list (string * JsonValue) :=
  [("f", JsonString "s2"); ("g", JsonNumber 2.2%float)].

Definition main_root_adds (pl : UnorderedMap.placement) : list (string * JsonValue) :=
  [ ("a", JsonString "s1");
    ("b", JsonNumber 1.1%float);
    ("c", JsonBoolean true);
    ("d", JsonBoolean false);
    ("e", JsonNull);
    ("h", JsonObject (JsonObject_adds pl main_obj_adds));
    ("i", JsonArray [JsonString "s3"; JsonNumber 3.3%float]) ].

(** * Facts about strings and streams *)

Section StringFacts.

Lemma append_cons a s t : String a s +:+ t = String a (s +:+ t).
Proof. reflexivity. Qed.

Lemma append_nil_r s : s +:+ EmptyString = s.
Proof. induction s as [|a s IH]; [reflexivity|]. now rewrite append_cons, IH. Qed.

Lemma append_assoc s t u : (s +:+ t) +:+ u = s +:+ (t +:+ u).
Proof.
  induction s as [|a s IH]; [reflexivity|].
  now rewrite !append_cons, IH.
Qed.

Lemma length_append s t :
  String.length (s +:+ t) = String.length s + String.length t.
Proof.
  induction s as [|a s IH]; [reflexivity|].
  rewrite append_cons. cbn [String.length]. now rewrite IH.
Qed.

Lemma substring_append_middle s t u :
  substring (String.length s) (String.length t) (s +:+ t +:+ u) = t.
Proof.
  induction s as [|a s IH].
  - change (EmptyString +:+ t +:+ u) with (t +:+ u). cbn [String.length].
    induction t as [|b t IHt].
    + now destruct u.
    + rewrite append_cons. cbn [String.length substring]. now rewrite IHt.
  - rewrite append_cons. cbn [String.length substring]. exact IH.
Qed.

Lemma flatten_app l1 l2 : flatten (l1 ++ l2) = flatten l1 +:+ flatten l2.
Proof.
  induction l1 as [|s l1 IH]; [reflexivity|].
  cbn [app flatten]. now rewrite IH, append_assoc.
Qed.

(** A loop that only inserts into the stream leaves what was there and
    appends the pieces in the order of the traversal. *)
Lemma fold_left_put {A} (g : string -> A -> string) (f : A -> string) l :
  (forall ss x, g ss x = ss +:+ f x) ->
  forall ss, fold_left g l ss = ss +:+ flatten (map f l).
Proof.
  intros Hg. induction l as [|x l IH]; intros ss; cbn [fold_left map flatten].
  - now rewrite append_nil_r.
  - now rewrite IH, Hg, append_assoc.
Qed.

End StringFacts.

(** * Facts about the containers *)

Section MapFacts.
Context {V : Type}.
Implicit Types (m : list (string * V)) (k : string) (v : V).

Import UnorderedMap.

Lemma find_Some_In m k v : find m k = Some v -> In (k, v) m.
Proof.
  induction m as [|[k' w] m IH]; cbn [find]; [discriminate|].
  destruct (String.eqb_spec k k') as [->|Hne].
  - intros [= ->]. now left.
  - intros H. right. auto.
Qed.

Lemma find_None_iff m k : find m k = None <-> ~ In k (map fst m).
Proof.
  induction m as [|[k' w] m IH]; cbn [find map fst In]; [tauto|].
  destruct (String.eqb_spec k k') as [->|Hne].
  - split; [discriminate|]. intros H. exfalso. apply H. now left.
  - rewrite IH. split; [|tauto]. intros H [E|HIn]; [congruence|tauto].
Qed.

Lemma In_find m k v : List.NoDup (map fst m) -> In (k, v) m -> find m k = Some v.
Proof.
  induction m as [|[k' w] m IH]; cbn [find map fst In]; [tauto|].
  intros Hnd [E|HIn].
  - injection E as -> ->. now rewrite String.eqb_refl.
  - apply NoDup_cons_iff in Hnd as [Hk' Hnd].
    destruct (String.eqb_spec k k') as [->|Hne]; [|auto].
    exfalso. apply Hk'. change k' with (fst (k', v)). now apply in_map.
Qed.

(** Lookups do not see the order of the sequence. *)
Lemma find_Permutation m m' k :
  List.NoDup (map fst m) -> Permutation m m' -> find m' k = find m k.
Proof.
  intros Hnd Hp.
  assert (Hnd' : List.NoDup (map fst m')).
  { eapply Permutation_NoDup; [|exact Hnd]. now apply Permutation_map. }
  destruct (find m k) as [v|] eqn:E.
  - apply In_find; [exact Hnd'|].
    eapply Permutation_in; [exact Hp|]. now apply find_Some_In.
  - apply find_None_iff. apply find_None_iff in E. intros HIn. apply E.
    eapply Permutation_in; [|exact HIn].
    now apply Permutation_map, Permutation_sym.
Qed.

Lemma insert_present pl m k v w : find m k = Some w -> insert pl m k v = m.
Proof. intros H. unfold insert. now rewrite H. Qed.

Lemma insert_fresh pl m k v :
  find m k = None -> Permutation (insert pl m k v) ((k, v) :: m).
Proof. intros H. unfold insert. rewrite H. apply link_perm. Qed.

Lemma insert_NoDup pl m k v :
  List.NoDup (map fst m) -> List.NoDup (map fst (insert pl m k v)).
Proof.
  intros Hnd. destruct (find m k) as [w|] eqn:E.
  - now rewrite (insert_present _ _ _ _ _ E).
  - eapply Permutation_NoDup.
    + apply Permutation_map, Permutation_sym, insert_fresh, E.
    + cbn [map fst]. constructor; [|exact Hnd]. now apply find_None_iff.
Qed.

Lemma find_insert_eq pl m k v :
  List.NoDup (map fst m) ->
  find (insert pl m k v) k = Some (default v (find m k)).
Proof.
  intros Hnd. destruct (find m k) as [w|] eqn:E.
  - now rewrite (insert_present _ _ _ _ _ E).
  - cbn [default].
    rewrite (find_Permutation ((k, v) :: m)).
    + cbn [find]. now rewrite String.eqb_refl.
    + cbn [map fst]. constructor; [|exact Hnd]. now apply find_None_iff.
    + apply Permutation_sym, insert_fresh, E.
Qed.

Lemma find_insert_ne pl m k k' v :
  List.NoDup (map fst m) -> k' <> k ->
  find (insert pl m k v) k' = find m k'.
Proof.
  intros Hnd Hne. destruct (find m k) as [w|] eqn:E.
  - now rewrite (insert_present _ _ _ _ _ E).
  - rewrite (find_Permutation ((k, v) :: m)).
    + cbn [find]. now destruct (String.eqb_spec k' k).
    + cbn [map fst]. constructor; [|exact Hnd]. now apply find_None_iff.
    + apply Permutation_sym, insert_fresh, E.
Qed.

Lemma size_insert pl m k v :
  size (insert pl m k v) =
  match find m k with Some _ => size m | None => S (size m) end.
Proof.
  destruct (find m k) as [w|] eqn:E.
  - now rewrite (insert_present _ _ _ _ _ E).
  - unfold size. now rewrite (Permutation_length (insert_fresh pl _ _ _ E)).
Qed.

End MapFacts.

(** What a run of [add] calls leaves in an object: keys stay unique, and a
    key is mapped to the value of the first call that named it. *)
Section ObjectFacts.
Variable pl : UnorderedMap.placement.

Lemma adds_from_NoDup adds : forall m,
  List.NoDup (map fst m) -> List.NoDup (map fst (fold_left (JsonObject_add_entry pl) adds m)).
Proof.
  induction adds as [|[k v] adds IH]; intros m Hnd; cbn [fold_left]; [exact Hnd|].
  apply IH. now apply insert_NoDup.
Qed.

Lemma adds_from_find adds k : forall m,
  List.NoDup (map fst m) ->
  UnorderedMap.find (fold_left (JsonObject_add_entry pl) adds m) k =
  match UnorderedMap.find m k with
  | Some v => Some v
  | None => UnorderedMap.find adds k
  end.
Proof.
  induction adds as [|[k1 v1] adds IH]; intros m Hnd; cbn [fold_left].
  - now destruct (UnorderedMap.find m k).
  - rewrite IH by now apply insert_NoDup.
    cbn [UnorderedMap.find]. unfold JsonObject_add_entry, JsonObject_add. cbn [fst snd].
    destruct (String.eqb_spec k k1) as [->|Hne].
    + rewrite find_insert_eq by exact Hnd.
      now destruct (UnorderedMap.find m k1).
    + now rewrite find_insert_ne by assumption.
Qed.

Lemma JsonObject_adds_NoDup adds : List.NoDup (map fst (JsonObject_adds pl adds)).
Proof. apply adds_from_NoDup. constructor. Qed.

Lemma JsonObject_adds_find adds k :
  UnorderedMap.find (JsonObject_adds pl adds) k = UnorderedMap.find adds k.
Proof. apply (adds_from_find adds k []). constructor. Qed.

End ObjectFacts.

Lemma JsonArray_adds_id adds : JsonArray_adds adds = adds.
Proof.
  unfold JsonArray_adds.
  enough (H : forall vs, fold_left JsonArray_add adds vs = vs ++ adds) by apply H.
  induction adds as [|v adds IH]; intros vs; cbn [fold_left].
  - now rewrite app_nil_r.
  - rewrite IH. unfold JsonArray_add, push_back. now rewrite <- app_assoc.
Qed.

(** The two loops, each as the text it leaves in the stream. *)
Lemma toString_JsonArray values_ :
  toString (JsonArray values_) =
  String "[" (flatten (map element_text values_) +:+ "]").
Proof.
  change (toString (JsonArray values_)) with
    (Stream.str (Stream.put_char
       (fold_left
          (fun ss value => Stream.put_char (Stream.put_string ss (toString value)) ",")
          values_ (Stream.put_char Stream.empty "[")) "]")).
  rewrite (fold_left_put _ element_text).
  - unfold Stream.str, Stream.put_char, Stream.empty.
    now rewrite append_assoc.
  - intros ss x. unfold Stream.put_char, Stream.put_string, element_text.
    now rewrite append_assoc.
Qed.

Lemma toString_JsonObject properties_ :
  toString (JsonObject properties_) =
  String "{" (flatten (map entry_text properties_) +:+ "}").
Proof.
  change (toString (JsonObject properties_)) with
    (Stream.str (Stream.put_char
       (fold_left
          (fun ss '(key, value) =>
             Stream.put_char
               (Stream.put_string
                  (Stream.put_char (Stream.put_string ss key) ":")
                  (toString value)) ",")
          properties_ (Stream.put_char Stream.empty "{")) "}")).
  rewrite (fold_left_put _ entry_text).
  - unfold Stream.str, Stream.put_char, Stream.empty.
    now rewrite append_assoc.
  - intros ss [key value].
    unfold Stream.put_char, Stream.put_string, entry_text. cbn [fst snd].
    now rewrite !append_assoc.
Qed.

(** * Facts about the store layer *)

Module MemFacts.

Import Mem.

Lemma bind_Ret {A B} (m : M A) (k : A -> M B) st b st' :
  bind m k st = Ret b st' <-> exists a st0, m st = Ret a st0 /\ k a st0 = Ret b st'.
Proof.
  unfold bind. split.
  - destruct (m st) as [a st0| |]; [eauto|discriminate..].
  - intros (a & st0 & -> & Hk). exact Hk.
Qed.

Lemma load_Ret p st o st' :
  load p st = Ret o st' <-> objects st !! p = Some o /\ st' = st.
Proof.
  unfold load. destruct (objects st !! p) as [o'|]; split.
  - intros [= -> ->]. auto.
  - intros [[= ->] ->]. reflexivity.
  - discriminate.
  - intros [[=] _].
Qed.

(** A loop whose body leaves the state alone leaves the state alone. *)
Lemma for_each_pure {A S} (body : S -> A -> M S) l :
  (forall s x st s' st', body s x st = Ret s' st' -> st' = st) ->
  forall s st s' st', for_each body l s st = Ret s' st' -> st' = st.
Proof.
  intros Hb. induction l as [|x l IH]; intros s st s' st'; cbn [for_each].
  - now intros [= _ ->].
  - intros (s1 & st1 & H1 & H2)%bind_Ret.
    apply Hb in H1 as ->. eauto.
Qed.

(** A loop whose body is replaced by one that returns at least as often
    returns at least as often. *)
Lemma for_each_mono {A S} (body body' : S -> A -> M S) l :
  (forall s x st s' st', body s x st = Ret s' st' -> body' s x st = Ret s' st') ->
  forall s st s' st',
    for_each body l s st = Ret s' st' -> for_each body' l s st = Ret s' st'.
Proof.
  intros Hb. induction l as [|x l IH]; intros s st s' st'; cbn [for_each];
    [trivial|].
  intros (s1 & st1 & H1 & H2)%bind_Ret.
  apply bind_Ret. exists s1, st1. eauto.
Qed.

(** Serialising reads the objects; it writes neither to them nor to
    [std::cout]. *)
Lemma toString_state fuel : forall this st s st',
  toString fuel this st = Ret s st' -> st' = st.
Proof.
  induction fuel as [|fuel IH]; intros this st s st'; cbn [toString];
    [discriminate|].
  intros (o & st0 & (_ & ->)%load_Ret & Ho)%bind_Ret.
  destruct o as [|value_|value_|value_|properties_|values_];
    try (injection Ho as _ ->; reflexivity).
  - apply bind_Ret in Ho as (ss & st1 & Hloop & [= _ ->]).
    revert Hloop. apply for_each_pure. intros ss0 [key value] st2 ss1 st3.
    intros (s0 & st4 & Hs & [= _ ->])%bind_Ret. eauto.
  - apply bind_Ret in Ho as (ss & st1 & Hloop & [= _ ->]).
    revert Hloop. apply for_each_pure. intros ss0 value st2 ss1 st3.
    intros (s0 & st4 & Hs & [= _ ->])%bind_Ret. eauto.
Qed.

(** A call that returns within a budget returns the same within a larger one. *)
Lemma toString_S fuel : forall this st s st',
  toString fuel this st = Ret s st' -> toString (S fuel) this st = Ret s st'.
Proof.
  induction fuel as [|fuel IH]; intros this st s st'; [discriminate|].
  remember (S fuel) as n eqn:En.
  rewrite En at 1. cbn [toString].
  intros (o & st0 & Hload & Ho)%bind_Ret.
  apply bind_Ret. exists o, st0. split; [exact Hload|].
  destruct o as [|value_|value_|value_|properties_|values_]; try exact Ho.
  - apply bind_Ret in Ho as (ss & st1 & Hloop & Hret).
    apply bind_Ret. exists ss, st1. split; [|exact Hret].
    revert Hloop. apply for_each_mono. intros ss0 [key value] st2 ss1 st3.
    intros (s0 & st4 & Hs & Hr)%bind_Ret.
    apply bind_Ret. exists s0, st4. subst n. auto.
  - apply bind_Ret in Ho as (ss & st1 & Hloop & Hret).
    apply bind_Ret. exists ss, st1. split; [|exact Hret].
    revert Hloop. apply for_each_mono. intros ss0 value st2 ss1 st3.
    intros (s0 & st4 & Hs & Hr)%bind_Ret.
    apply bind_Ret. exists s0, st4. subst n. auto.
Qed.

Lemma toString_mono fuel fuel' this st s st' :
  fuel <= fuel' ->
  toString fuel this st = Ret s st' -> toString fuel' this st = Ret s st'.
Proof.
  induction 1 as [|n Hle IH]; [trivial|].
  intros H. now apply toString_S, IH.
Qed.

End MemFacts.

(** ** The store layer computes what the value layer says *)

Lemma bind_returns {A B} (m : Mem.M A) (k : A -> Mem.M B) st a st' :
  m st = Mem.Ret a st' -> Mem.bind m k st = k a st'.
Proof. intros H. unfold Mem.bind. now rewrite H. Qed.

Lemma load_returns p o st :
  Mem.objects st !! p = Some o -> Mem.load p st = Mem.Ret o st.
Proof. intros H. unfold Mem.load. now rewrite H. Qed.

Lemma max_list_map_lt {A} (f : A -> nat) l n :
  max_list (map f l) < n -> Forall (fun a => f a < n) l.
Proof.
  induction l as [|a l IH]; [constructor|].
  change (max_list (map f (a :: l))) with (Nat.max (f a) (max_list (map f l))).
  intros H. constructor; [lia|]. apply IH. lia.
Qed.

(** A loop over the pointers, whose body agrees at each step with a step
    [g] over the matching trees, computes the fold of [g] over the trees
    and leaves the state as it was. *)
Lemma for_each_all2 {A B S} (R : A -> B -> Prop)
    (body : S -> B -> Mem.M S) (g : S -> A -> S) (st : Mem.state) :
  forall l ps,
    all2 R l ps ->
    Forall (fun a => forall b s, R a b -> body s b st = Mem.Ret (g s a) st) l ->
    forall s, Mem.for_each body ps s st = Mem.Ret (fold_left g l s) st.
Proof.
  induction l as [|a l IH]; intros [|b ps]; cbn [all2];
    try (intros []; fail).
  - reflexivity.
  - intros [HR Hrest] Hall s.
    apply Forall_cons in Hall as [Ha Hl].
    cbn [Mem.for_each fold_left].
    rewrite (bind_returns _ _ _ _ _ (Ha b s HR)). now apply IH.
Qed.

Lemma toString_repr t : forall st p fuel,
  repr (Mem.objects st) t p -> depth t < fuel ->
  Mem.toString fuel p st = Mem.Ret (toString t) st.
Proof.
  induction t as [|value_|value_|value_|properties_ IH|values_ IH]
    using JsonValue_tree_ind;
    intros st p [|fuel] Hr Hd; try lia; cbn [Mem.toString];
    try (cbn [repr] in Hr;
         rewrite (bind_returns _ _ _ _ _ (load_returns _ _ _ Hr)); reflexivity).
  - destruct Hr as (ps & Hp & Hall).
    rewrite (bind_returns _ _ _ _ _ (load_returns _ _ _ Hp)).
    cbn [depth] in Hd. apply Nat.succ_lt_mono, max_list_map_lt in Hd.
    erewrite bind_returns; [reflexivity|].
    apply (for_each_all2 _ _ _ _ _ _ Hall).
    apply Forall_forall. intros [key value] HIn [key' q] ss [Hk Hq].
    cbn [fst snd] in Hk, Hq. subst key'.
    rewrite Forall_forall in IH, Hd.
    rewrite (bind_returns _ _ _ _ _ (IH _ HIn st q fuel Hq (Hd _ HIn))).
    reflexivity.
  - destruct Hr as (ps & Hp & Hall).
    rewrite (bind_returns _ _ _ _ _ (load_returns _ _ _ Hp)).
    cbn [depth] in Hd. apply Nat.succ_lt_mono, max_list_map_lt in Hd.
    erewrite bind_returns; [reflexivity|].
    apply (for_each_all2 _ _ _ _ _ _ Hall).
    apply Forall_forall. intros value HIn q ss Hq.
    rewrite Forall_forall in IH, Hd.
    rewrite (bind_returns _ _ _ _ _ (IH _ HIn st q fuel Hq (Hd _ HIn))).
    reflexivity.
Qed.

(** The text is a function of the tree alone: two stores that hold the
    same tree, at whatever addresses, give the same text. *)
Lemma toString_function_of_tree t st st' p p' fuel fuel' s s' st1 st1' :
  repr (Mem.objects st) t p -> repr (Mem.objects st') t p' ->
  Mem.toString fuel p st = Mem.Ret s st1 ->
  Mem.toString fuel' p' st' = Mem.Ret s' st1' ->
  s = s'.
Proof.
  intros Hr Hr' H H'.
  pose proof (toString_repr t st p (Nat.max fuel (S (depth t))) Hr ltac:(lia)) as E.
  pose proof (toString_repr t st' p' (Nat.max fuel' (S (depth t))) Hr' ltac:(lia)) as E'.
  apply (MemFacts.toString_mono _ (Nat.max fuel (S (depth t)))) in H; [|lia].
  apply (MemFacts.toString_mono _ (Nat.max fuel' (S (depth t)))) in H'; [|lia].
  congruence.
Qed.

(** On the store, [add] under a key that the object has returns and
    leaves the state as it was (the value passed in is dropped; giving its
    memory back is not modelled). *)
Lemma store_add_existing pl st this properties_ name q value :
  Mem.objects st !! this = Some (Mem.Object properties_) ->
  UnorderedMap.find properties_ name = Some q ->
  Mem.JsonObject_add pl this name value st = Mem.Ret tt st.
Proof.
  intros Hthis Hfind. unfold Mem.JsonObject_add.
  rewrite (bind_returns _ _ _ _ _ (load_returns _ _ _ Hthis)).
  rewrite (insert_present pl _ _ value _ Hfind).
  unfold Mem.store. rewrite (insert_id _ _ _ Hthis). now destruct st.
Qed.

(** * The program's own examples, checked *)

Example double_to_string_examples :
  map Stream.double_to_string
    [1.1; 2.2; 3.3; 0; -0; 12; -2.5; 0.1; 100000; 1000000; 1234567;
     0.0001; 0.00001; 123456.5; 1e22; 5e-324; infinity; neg_infinity; nan]%float =
  ["1.1"; "2.2"; "3.3"; "0"; "-0"; "12"; "-2.5"; "0.1"; "100000"; "1e+06";
   "1.23457e+06"; "0.0001"; "1e-05"; "123456"; "1e+22"; "4.94066e-324";
   "inf"; "-inf"; "nan"].
Proof. vm_compute. reflexivity. Qed.

(** A content with a double quote, a backslash and a line feed goes out
    as it is, between the two quotes. *)
Example string_with_special_characters :
  let lf := ascii_of_nat 10 in
  toString (JsonString (string_of_list_ascii ["a"; dquote; "\"; lf]%char)) =
  string_of_list_ascii [dquote; "a"; dquote; "\"; lf; dquote]%char.
Proof. reflexivity. Qed.

(** The output that the comment in [main] records is the text of [root]
    for one order of its seven entries. *)
Example main_documented_output :
  exists order,
    Permutation order main_entries
    /\ toString (JsonObject order) =
       with_dquotes
         "{i:['s3',3.3,],a:'s1',b:1.1,c:true,d:false,e:null,h:{f:'s2',g:2.2,},}".
Proof.
  exists (List.last main_entries ("", JsonNull) :: List.removelast main_entries).
  split.
  - exact (Permutation_cons_append (List.removelast main_entries)
             (List.last main_entries ("", JsonNull))).
  - vm_compute. reflexivity.
Qed.

(** [main] on the store, when the hash table keeps the order of insertion. *)
Example main_prints :
  exists st,
    Mem.main UnorderedMap.at_back Mem.initial = Mem.Ret tt st
    /\ Mem.cout st =
       with_dquotes
         "{a:'s1',b:1.1,c:true,d:false,e:null,h:{f:'s2',g:2.2,},i:['s3',3.3,],}"
       +:+ newline.
Proof. eexists. split; vm_compute; reflexivity. Qed.

(** The same calls give another text when the hash table links each new
    node at the head: the order of the entries is the library's. *)
Example order_follows_placement :
  let adds := [("f", JsonString "s2"); ("g", JsonNumber 2.2%float)] in
  toString (JsonObject (JsonObject_adds UnorderedMap.at_back adds)) =
    with_dquotes "{f:'s2',g:2.2,}"
  /\ toString (JsonObject (JsonObject_adds UnorderedMap.at_front adds)) =
    with_dquotes "{g:2.2,f:'s2',}".
Proof. split; vm_compute; reflexivity. Qed.

Lemma scenario_array_program_returns :
  scenario_array_program Mem.initial = Mem.Ret 0 scenario_array_state.
Proof. vm_compute. reflexivity. Qed.

Lemma scenario_array_repr :
  repr (Mem.objects scenario_array_state) scenario_array_tree 0.
Proof.
  exists [1; 2]. split; [vm_compute; reflexivity|].
  repeat split; vm_compute; reflexivity.
Qed.

Lemma cyclic_state_never_returns fuel :
  Mem.toString fuel 0 cyclic_state = Mem.OutOfFuel.
Proof.
  induction fuel as [|fuel IH]; [reflexivity|].
  cbn [Mem.toString].
  rewrite (bind_returns _ _ _ (Mem.Array [0]) cyclic_state) by reflexivity.
  cbn [Mem.for_each]. unfold Mem.bind. now rewrite IH.
Qed.

(** * The serialisation rules *)

(** C1. An array renders as an opening bracket, then every element's own
    text followed by a comma, in the order the elements were added, then a
    closing bracket; the last element has its comma too, and an array with
    no element renders as the two brackets alone. *)
Theorem array_toString :
  (forall values_ : list JsonValue,
     toString (JsonArray values_) =
     "[" +:+ flatten (map (fun value => toString value +:+ ",") values_) +:+ "]")
  /\ (forall adds : list JsonValue,
        toString (JsonArray (JsonArray_adds adds)) =
        "[" +:+ flatten (map (fun value => toString value +:+ ",") adds) +:+ "]")
  /\ toString (JsonArray []) = "[]".
Proof.
  split; [|split].
  - intros values_. apply toString_JsonArray.
  - intros adds. rewrite JsonArray_adds_id. apply toString_JsonArray.
  - reflexivity.
Qed.

(** C2. An object renders as an opening brace, then one segment per stored
    entry, taken in some order that lists every stored entry exactly once,
    then a closing brace.  A segment is the key as it is (no quotes), a
    colon, the value's own text and a comma; the last segment has its
    comma too, and an object with no entry renders as the two braces alone. *)
Theorem object_toString :
  (forall (pl : UnorderedMap.placement) (adds : list (string * JsonValue)),
     let properties_ := JsonObject_adds pl adds in
     exists order : list (string * JsonValue),
       length order = UnorderedMap.size properties_
       /\ List.NoDup (map fst order)
       /\ (forall key value,
             In (key, value) order <-> UnorderedMap.find properties_ key = Some value)
       /\ toString (JsonObject properties_) =
          "{" +:+ flatten (map (fun '(key, value) => key +:+ ":" +:+ toString value +:+ ",") order)
              +:+ "}")
  /\ toString (JsonObject UnorderedMap.empty) = "{}".
Proof.
  split; [|reflexivity].
  intros pl adds properties_. exists properties_.
  pose proof (JsonObject_adds_NoDup pl adds) as Hnd. fold properties_ in Hnd.
  repeat split.
  - exact Hnd.
  - now apply In_find.
  - apply find_Some_In.
  - rewrite toString_JsonObject. do 3 f_equal.
    apply map_ext. now intros [key value].
Qed.

(** C3. A string renders as a double quote, its characters exactly as they
    are, and a double quote: the text is two characters longer than the
    content and the content sits unchanged between the quotes. *)
Theorem string_toString (s : string) :
  toString (JsonString s) = String dquote (s +:+ String dquote EmptyString)
  /\ String.length (toString (JsonString s)) = 2 + String.length s
  /\ substring 1 (String.length s) (toString (JsonString s)) = s.
Proof.
  assert (E : toString (JsonString s) = String dquote (s +:+ String dquote EmptyString))
    by reflexivity.
  split; [exact E|]. rewrite E. split.
  - cbn [String.length]. rewrite length_append. cbn [String.length]. lia.
  - apply (substring_append_middle (String dquote EmptyString) s).
Qed.

(** C4. A boolean renders as the word true or the word false. *)
Theorem boolean_toString (b : bool) :
  toString (JsonBoolean b) = if b then "true" else "false".
Proof. now destruct b. Qed.

(** C5. The array built from an empty one by adding the string s3 and then
    the number 3.3 renders as bracket, quoted s3, comma, 3.3, comma,
    bracket. *)
Theorem scenario3_text :
  toString
    (JsonArray
       (JsonArray_add (JsonArray_add [] (JsonString "s3")) (JsonNumber 3.3%float))) =
  string_of_list_ascii
    ["["; dquote; "s"; "3"; dquote; ","; "3"; "."; "3"; ","; "]"]%char.
Proof. vm_compute. reflexivity. Qed.

(** C6. Adding to an array puts the new value after all the others: the
    array is one longer, its earlier elements are the old ones in their
    old places, and the new value is the last.  The call is defined for
    every array and every value. *)
Theorem array_add (values_ : list JsonValue) (value : JsonValue) :
  JsonArray_add values_ value = values_ ++ [value]
  /\ length (JsonArray_add values_ value) = S (length values_)
  /\ take (length values_) (JsonArray_add values_ value) = values_
  /\ (forall i x, values_ !! i = Some x -> JsonArray_add values_ value !! i = Some x)
  /\ JsonArray_add values_ value !! length values_ = Some value.
Proof.
  unfold JsonArray_add, push_back. repeat split.
  - rewrite length_app. cbn. lia.
  - now rewrite take_app_length.
  - intros i x H. now apply lookup_app_l_Some.
  - now rewrite list_lookup_middle.
Qed.

(** C10. Adding under a key that the object already has changes nothing:
    the key keeps its value, the value passed in is dropped, and the
    object has as many entries as before. *)
Theorem object_add_existing (pl : UnorderedMap.placement)
    (properties_ : list (string * JsonValue)) (k : string) (v v' : JsonValue) :
  UnorderedMap.find properties_ k = Some v ->
  JsonObject_add pl properties_ k v' = properties_
  /\ UnorderedMap.find (JsonObject_add pl properties_ k v') k = Some v
  /\ UnorderedMap.size (JsonObject_add pl properties_ k v') =
     UnorderedMap.size properties_
  /\ toString (JsonObject (JsonObject_add pl properties_ k v')) =
     toString (JsonObject properties_).
Proof.
  intros H. unfold JsonObject_add.
  rewrite (insert_present pl _ _ v' _ H). auto.
Qed.

Lemma object_add_existing_witness :
  let properties_ := JsonObject_adds UnorderedMap.at_front [("a", JsonString "s1")] in
  UnorderedMap.find properties_ "a" = Some (JsonString "s1")
  /\ JsonObject_add UnorderedMap.at_front properties_ "a" JsonNull = properties_.
Proof.
  split; [reflexivity|].
  apply (object_add_existing UnorderedMap.at_front _ "a" (JsonString "s1") JsonNull).
  reflexivity.
Defined.

(** * Effects, determinism and termination *)

(** C7. A call of toString that returns leaves the state of the program as
    it found it: no object of any class is written and nothing is sent to
    the output, so every tree that was laid out in the store before the
    call is laid out in it after the call, at the same place. *)
Theorem toString_no_side_effect
    (fuel : nat) (this : Mem.ptr) (st st' : Mem.state) (s : string) :
  Mem.toString fuel this st = Mem.Ret s st' ->
  st' = st
  /\ Mem.cout st' = Mem.cout st
  /\ (forall t p, repr (Mem.objects st) t p <-> repr (Mem.objects st') t p).
Proof.
  intros H. apply MemFacts.toString_state in H as ->.
  split; [reflexivity|]. split; [reflexivity|tauto].
Qed.

Lemma toString_no_side_effect_witness :
  Mem.toString 2 0 scenario_array_state =
    Mem.Ret (toString scenario_array_tree) scenario_array_state
  /\ repr (Mem.objects scenario_array_state) scenario_array_tree 0.
Proof.
  assert (H : Mem.toString 2 0 scenario_array_state =
              Mem.Ret (toString scenario_array_tree) scenario_array_state)
    by (vm_compute; reflexivity).
  split; [exact H|].
  apply (proj2 (proj2 (toString_no_side_effect 2 0 _ _ _ H))).
  exists [1; 2]. split; [vm_compute; reflexivity|].
  repeat split; vm_compute; reflexivity.
Defined.

(** C8. Two calls of toString on the same object, one after the other with
    nothing done to the store in between, return the same text; this holds
    for every class, objects included, whatever the order of their entries. *)
Theorem toString_deterministic
    (this : Mem.ptr) (st st1 st2 : Mem.state)
    (fuel1 fuel2 : nat) (s1 s2 : string) :
  Mem.toString fuel1 this st = Mem.Ret s1 st1 ->
  Mem.toString fuel2 this st1 = Mem.Ret s2 st2 ->
  s1 = s2.
Proof.
  intros H1 H2.
  pose proof (MemFacts.toString_state _ _ _ _ _ H1) as ->.
  apply (MemFacts.toString_mono _ (Nat.max fuel1 fuel2)) in H1; [|lia].
  apply (MemFacts.toString_mono _ (Nat.max fuel1 fuel2)) in H2; [|lia].
  congruence.
Qed.

Lemma toString_deterministic_witness :
  exists s1 s2 st1 st2,
    Mem.toString 2 0 scenario_array_state = Mem.Ret s1 st1
    /\ Mem.toString 5 0 st1 = Mem.Ret s2 st2
    /\ s1 = s2.
Proof.
  exists (toString scenario_array_tree), (toString scenario_array_tree),
    scenario_array_state, scenario_array_state.
  assert (H1 : Mem.toString 2 0 scenario_array_state =
               Mem.Ret (toString scenario_array_tree) scenario_array_state)
    by (vm_compute; reflexivity).
  assert (H2 : Mem.toString 5 0 scenario_array_state =
               Mem.Ret (toString scenario_array_tree) scenario_array_state)
    by (vm_compute; reflexivity).
  split; [exact H1|]. split; [exact H2|].
  exact (toString_deterministic 0 _ _ _ 2 5 _ _ H1 H2).
Defined.

(** C9. On a store that holds a finite tree, toString returns: a budget of
    one more than the depth of the tree is enough, and so is any larger
    one; the text is the one of the tree and the state is unchanged.  The
    two add methods have no loop and no recursion of their own: on a
    receiver of their class they return at once, with the receiver
    updated. *)
Theorem operations_terminate :
  (forall (st : Mem.state) (t : JsonValue) (p : Mem.ptr),
     repr (Mem.objects st) t p ->
     exists fuel, forall fuel', fuel <= fuel' ->
       Mem.toString fuel' p st = Mem.Ret (toString t) st)
  /\ (forall (st : Mem.state) this values_ value,
        Mem.objects st !! this = Some (Mem.Array values_) ->
        Mem.JsonArray_add this value st =
        Mem.Ret tt
          (Mem.State (<[this := Mem.Array (values_ ++ [value])]> (Mem.objects st))
             (Mem.cout st)))
  /\ (forall pl (st : Mem.state) this properties_ name value,
        Mem.objects st !! this = Some (Mem.Object properties_) ->
        Mem.JsonObject_add pl this name value st =
        Mem.Ret tt
          (Mem.State
             (<[this := Mem.Object (UnorderedMap.insert pl properties_ name value)]>
                (Mem.objects st))
             (Mem.cout st))).
Proof.
  split; [|split].
  - intros st t p Hr. exists (S (depth t)). intros fuel' Hle.
    apply toString_repr; [exact Hr|lia].
  - intros st this values_ value H.
    unfold Mem.JsonArray_add.
    rewrite (bind_returns _ _ _ _ _ (load_returns _ _ _ H)). reflexivity.
  - intros pl st this properties_ name value H.
    unfold Mem.JsonObject_add.
    rewrite (bind_returns _ _ _ _ _ (load_returns _ _ _ H)). reflexivity.
Qed.

Lemma operations_terminate_witness :
  repr (Mem.objects scenario_array_state) scenario_array_tree 0
  /\ (exists fuel, forall fuel', fuel <= fuel' ->
        Mem.toString fuel' 0 scenario_array_state =
        Mem.Ret (toString scenario_array_tree) scenario_array_state)
  /\ Mem.objects scenario_array_state !! 0 = Some (Mem.Array [1; 2])
  /\ (exists st', Mem.JsonArray_add 0 1 scenario_array_state = Mem.Ret tt st')
  /\ Mem.objects (Mem.State {[ 0 := Mem.Object [] ]} EmptyString) !! 0
     = Some (Mem.Object [])
  /\ (exists st',
        Mem.JsonObject_add UnorderedMap.at_back 0 "a" 1
          (Mem.State {[ 0 := Mem.Object [] ]} EmptyString)
        = Mem.Ret tt st').
Proof.
  destruct operations_terminate as (HtoString & Harray & Hobject).
  assert (Hr : repr (Mem.objects scenario_array_state) scenario_array_tree 0).
  { exists [1; 2]. split; [vm_compute; reflexivity|].
    repeat split; vm_compute; reflexivity. }
  assert (Ha : Mem.objects scenario_array_state !! 0 = Some (Mem.Array [1; 2]))
    by (vm_compute; reflexivity).
  assert (Ho : Mem.objects (Mem.State {[ 0 := Mem.Object [] ]} EmptyString) !! 0
               = Some (Mem.Object []))
    by (vm_compute; reflexivity).
  split; [exact Hr|]. split; [exact (HtoString _ _ _ Hr)|].
  split; [exact Ha|]. split; [eexists; exact (Harray _ _ _ 1 Ha)|].
  split; [exact Ho|]. eexists. exact (Hobject UnorderedMap.at_back _ _ _ "a" 1 Ho).
Defined.

(** * More about the two containers *)

Lemma length_flatten_Permutation l l' :
  Permutation l l' -> String.length (flatten l) = String.length (flatten l').
Proof.
  induction 1 as [|s l l' _ IH|s s' l|l l' l'' _ IH1 _ IH2]; cbn [flatten].
  - reflexivity.
  - rewrite !length_append. now rewrite IH.
  - rewrite !length_append. lia.
  - now rewrite IH1.
Qed.

Lemma length_toString_JsonObject properties_ :
  String.length (toString (JsonObject properties_)) =
  2 + String.length (flatten (map entry_text properties_)).
Proof.
  rewrite toString_JsonObject. cbn [String.length].
  rewrite length_append. cbn [String.length]. lia.
Qed.

(** Two sequences with unique keys and the same lookups hold the same
    entries. *)
Lemma same_find_Permutation {V} (m m' : list (string * V)) :
  List.NoDup (map fst m) -> List.NoDup (map fst m') ->
  (forall k, UnorderedMap.find m k = UnorderedMap.find m' k) ->
  Permutation m m'.
Proof.
  intros Hnd Hnd' Hfind.
  apply Permutation.NoDup_Permutation;
    [eapply List.NoDup_map_inv, Hnd|eapply List.NoDup_map_inv, Hnd'|].
  intros [k v]. split; intros HIn.
  - apply find_Some_In. rewrite <- Hfind. now apply In_find.
  - apply find_Some_In. rewrite Hfind. now apply In_find.
Qed.

Lemma In_keys_find {V} (m : list (string * V)) k :
  In k (map fst m) <-> UnorderedMap.find m k <> None.
Proof.
  rewrite find_None_iff. split; [tauto|].
  intros H. destruct (in_dec string_dec k (map fst m)); tauto.
Qed.

(** X1. On an object with unique keys, add is an insertion that gives way
    to what is there: afterwards the key named in the call is mapped to
    the value it had, or to the new value when it had none, and every
    other key is mapped as before. *)
Theorem object_add_lookup (pl : UnorderedMap.placement)
    (properties_ : list (string * JsonValue)) (name key : string) (value : JsonValue) :
  List.NoDup (map fst properties_) ->
  UnorderedMap.find (JsonObject_add pl properties_ name value) key =
  if String.eqb key name then
    match UnorderedMap.find properties_ name with
    | Some old => Some old
    | None => Some value
    end
  else UnorderedMap.find properties_ key.
Proof.
  intros Hnd. unfold JsonObject_add.
  destruct (String.eqb_spec key name) as [->|Hne].
  - rewrite find_insert_eq by exact Hnd.
    now destruct (UnorderedMap.find properties_ name).
  - now apply find_insert_ne.
Qed.

Lemma object_add_lookup_witness :
  let properties_ := [("a", JsonNull)] in
  List.NoDup (map fst properties_)
  /\ UnorderedMap.find (JsonObject_add UnorderedMap.at_front properties_ "b" (JsonBoolean true)) "b"
     = Some (JsonBoolean true)
  /\ UnorderedMap.find (JsonObject_add UnorderedMap.at_front properties_ "b" (JsonBoolean true)) "a"
     = Some JsonNull.
Proof.
  assert (Hnd : List.NoDup (map fst [("a", JsonNull)])).
  { repeat constructor. intros []. }
  split; [exact Hnd|]. split.
  - exact (object_add_lookup UnorderedMap.at_front _ "b" "b" (JsonBoolean true) Hnd).
  - exact (object_add_lookup UnorderedMap.at_front _ "b" "a" (JsonBoolean true) Hnd).
Defined.

(** X2. No run of add calls, under any placement, leaves an object with a
    key stored twice. *)
Theorem object_keys_unique (pl : UnorderedMap.placement)
    (adds : list (string * JsonValue)) :
  List.NoDup (map fst (JsonObject_adds pl adds)).
Proof. apply adds_from_NoDup. constructor. Qed.

(** X3. After a run of add calls a key is mapped to the value of the first
    call that named it, and to nothing when no call named it; the object
    has one entry per distinct key of the run. *)
Theorem object_adds_first_wins (pl : UnorderedMap.placement)
    (adds : list (string * JsonValue)) :
  (forall key, UnorderedMap.find (JsonObject_adds pl adds) key = UnorderedMap.find adds key)
  /\ UnorderedMap.size (JsonObject_adds pl adds) = length (remove_dups (map fst adds)).
Proof.
  assert (Hfind : forall key,
    UnorderedMap.find (JsonObject_adds pl adds) key = UnorderedMap.find adds key).
  { intros key. apply (adds_from_find pl adds key []). constructor. }
  split; [exact Hfind|].
  unfold UnorderedMap.size. rewrite <- (length_map fst).
  apply Permutation_length, Permutation.NoDup_Permutation.
  - apply adds_from_NoDup. constructor.
  - apply NoDup_ListNoDup, NoDup_remove_dups.
  - intros k. rewrite In_keys_find, Hfind, <- In_keys_find.
    rewrite <- !list_elem_of_In. now rewrite elem_of_remove_dups.
Qed.

(** X4. The placement of the hash table decides the order of the entries
    and nothing else: the same run of add calls under two placements
    gives the same entries and lookups, texts made of the same segments
    in another order, and texts of the same length. *)
Theorem object_text_up_to_order (pl1 pl2 : UnorderedMap.placement)
    (adds : list (string * JsonValue)) :
  Permutation (JsonObject_adds pl1 adds) (JsonObject_adds pl2 adds)
  /\ (forall key,
        UnorderedMap.find (JsonObject_adds pl1 adds) key =
        UnorderedMap.find (JsonObject_adds pl2 adds) key)
  /\ Permutation (map entry_text (JsonObject_adds pl1 adds))
                 (map entry_text (JsonObject_adds pl2 adds))
  /\ String.length (toString (JsonObject (JsonObject_adds pl1 adds))) =
     String.length (toString (JsonObject (JsonObject_adds pl2 adds))).
Proof.
  assert (Hfind : forall key,
    UnorderedMap.find (JsonObject_adds pl1 adds) key =
    UnorderedMap.find (JsonObject_adds pl2 adds) key).
  { intros key. now rewrite !JsonObject_adds_find. }
  assert (Hp : Permutation (JsonObject_adds pl1 adds) (JsonObject_adds pl2 adds)).
  { apply same_find_Permutation; [apply JsonObject_adds_NoDup..|exact Hfind]. }
  repeat split; [exact Hp|exact Hfind|now apply Permutation_map|].
  rewrite !length_toString_JsonObject. f_equal.
  now apply length_flatten_Permutation, Permutation_map.
Qed.

(** X5. Adding a value to an array changes its text in one place: the
    value's text and a comma go in just before the closing bracket. *)
Theorem array_text_after_add (values_ : list JsonValue) (value : JsonValue) :
  exists body,
    toString (JsonArray values_) = "[" +:+ body +:+ "]"
    /\ toString (JsonArray (JsonArray_add values_ value)) =
       "[" +:+ body +:+ toString value +:+ ",]".
Proof.
  exists (flatten (map element_text values_)). split.
  - apply toString_JsonArray.
  - rewrite toString_JsonArray. unfold JsonArray_add, push_back.
    rewrite map_app, flatten_app. cbn [map flatten]. unfold element_text at 2.
    rewrite append_nil_r, !append_assoc. reflexivity.
Qed.

(** X6. Adding under a key the object does not have puts one new segment
    among the old ones, wherever the placement says: the segments of the
    new text are the new segment and the old ones, and the text grows by
    the length of the new segment. *)
Theorem object_add_fresh_text (pl : UnorderedMap.placement)
    (properties_ : list (string * JsonValue)) (name : string) (value : JsonValue) :
  UnorderedMap.find properties_ name = None ->
  Permutation (map entry_text (JsonObject_add pl properties_ name value))
              ((name +:+ ":" +:+ toString value +:+ ",") :: map entry_text properties_)
  /\ String.length (toString (JsonObject (JsonObject_add pl properties_ name value))) =
     String.length (toString (JsonObject properties_))
     + String.length (name +:+ ":" +:+ toString value +:+ ",").
Proof.
  intros Hfresh.
  assert (Hp : Permutation (map entry_text (JsonObject_add pl properties_ name value))
                 (entry_text (name, value) :: map entry_text properties_)).
  { apply (Permutation_map entry_text (l' := (name, value) :: properties_)).
    now apply insert_fresh. }
  split; [exact Hp|].
  rewrite !length_toString_JsonObject.
  rewrite (length_flatten_Permutation _ _ Hp). cbn [flatten].
  rewrite length_append. unfold entry_text at 1. cbn [fst snd]. lia.
Qed.

Lemma object_add_fresh_text_witness :
  UnorderedMap.find [("a", JsonNull)] "b" = None
  /\ String.length
       (toString (JsonObject (JsonObject_add UnorderedMap.at_back [("a", JsonNull)] "b" JsonNull))) =
     String.length (toString (JsonObject [("a", JsonNull)]))
     + String.length ("b" +:+ ":" +:+ toString JsonNull +:+ ",").
Proof.
  split; [reflexivity|].
  exact (proj2 (object_add_fresh_text UnorderedMap.at_back [("a", JsonNull)] "b" JsonNull
                  eq_refl)).
Defined.

Lemma toString_JsonString s :
  toString (JsonString s) = String dquote (s +:+ String dquote EmptyString).
Proof. reflexivity. Qed.

(** X7. Nothing in a string is escaped, so the text does not tell a string
    from its neighbours: an array of the one string whose content is a,
    quote, comma, quote, b has the text of the array of the two strings a
    and b. *)
Theorem string_content_forges_elements (a b : string) :
  toString
    (JsonArray
       [JsonString (a +:+ String dquote (String "," (String dquote b)))]) =
  toString (JsonArray [JsonString a; JsonString b])
  /\ JsonArray [JsonString (a +:+ String dquote (String "," (String dquote b)))]
     <> JsonArray [JsonString a; JsonString b].
Proof.
  split; [|discriminate].
  rewrite !toString_JsonArray. cbn [map flatten]. unfold element_text.
  rewrite !toString_JsonString.
  repeat (rewrite ?append_assoc, ?append_cons, ?append_nil_r; cbn [String.append]).
  reflexivity.
Qed.

(** X8. Keys go out bare, so the text does not tell a key from the entries
    around it: an object with the one key made of k1, colon, the text of
    v1, comma, k2 has the text of the object with the two keys k1 and k2. *)
Theorem object_key_forges_entries (k1 k2 : string) (v1 v2 : JsonValue) :
  toString (JsonObject [(k1 +:+ ":" +:+ toString v1 +:+ "," +:+ k2, v2)]) =
  toString (JsonObject [(k1, v1); (k2, v2)]).
Proof.
  rewrite !toString_JsonObject. cbn [map flatten]. unfold entry_text. cbn [fst snd].
  rewrite ?append_assoc, ?append_nil_r. reflexivity.
Qed.

(** * More about the store layer *)

Section All2Facts.
Context {A B : Type}.
Implicit Types (R : A -> B -> Prop) (l : list A) (ps : list B).

Lemma all2_app R l1 ps1 l2 ps2 :
  all2 R l1 ps1 -> all2 R l2 ps2 -> all2 R (l1 ++ l2) (ps1 ++ ps2).
Proof.
  revert ps1. induction l1 as [|a l1 IH]; intros [|b ps1]; cbn [all2 app];
    try (intros []; fail).
  - trivial.
  - intros [HR H1] H2. split; [exact HR|]. now apply IH.
Qed.

Lemma all2_In_r R l ps b :
  all2 R l ps -> In b ps -> exists a, In a l /\ R a b.
Proof.
  revert ps. induction l as [|a l IH]; intros [|b' ps]; cbn [all2 In];
    try (intros []; fail); try (intros _ []; fail).
  intros [HR Hrest] [->|HIn].
  - exists a. auto.
  - destruct (IH _ Hrest HIn) as (a' & Ha' & HR'). exists a'. auto.
Qed.

Lemma all2_impl R R' l ps :
  Forall (fun a => forall b, In b ps -> R a b -> R' a b) l ->
  all2 R l ps -> all2 R' l ps.
Proof.
  revert ps. induction l as [|a l IH]; intros [|b ps]; cbn [all2]; trivial.
  intros Hall [HR Hrest]. apply Forall_cons in Hall as [Ha Hl]. split.
  - apply Ha; [now left|exact HR].
  - apply IH; [|exact Hrest].
    eapply Forall_impl; [exact Hl|]. cbn. intros a' H b' Hb'. apply H. now right.
Qed.

Lemma all2_functional R l l' ps :
  Forall (fun a => forall b a', R a b -> R a' b -> a = a') l ->
  all2 R l ps -> all2 R l' ps -> l = l'.
Proof.
  revert l' ps. induction l as [|a l IH]; intros [|a' l'] [|b ps]; cbn [all2];
    try (intros _ []; fail); try (intros _ _ []; fail); trivial.
  intros Hall [HR Hrest] [HR' Hrest']. apply Forall_cons in Hall as [Ha Hl].
  f_equal; [eapply Ha; eassumption|]. eapply IH; eassumption.
Qed.

End All2Facts.

Section ReprFacts.
Implicit Types (h : gmap Mem.ptr Mem.object) (t : JsonValue) (p q : Mem.ptr).

Lemma repr_allocated h t p : repr h t p -> h !! p <> None.
Proof.
  destruct t; cbn [repr]; try congruence.
  - intros (ps & Hp & _). congruence.
  - intros (ps & Hp & _). congruence.
Qed.

Lemma depth_array_child v values_ : In v values_ -> depth v < depth (JsonArray values_).
Proof.
  intros HIn. cbn [depth]. apply Nat.lt_succ_r, max_list_elem_of_le.
  apply list_elem_of_In. now apply in_map.
Qed.

Lemma depth_object_child (e : string * JsonValue) properties_ :
  In e properties_ -> depth e.2 < depth (JsonObject properties_).
Proof.
  intros HIn. cbn [depth]. apply Nat.lt_succ_r, max_list_elem_of_le.
  apply list_elem_of_In. now apply (in_map (fun e => depth e.2)).
Qed.

(** Every pointer held by the root of a laid out tree leads to one of the
    tree's children, laid out in turn. *)
Lemma repr_children h t p o c :
  repr h t p -> h !! p = Some o -> In c (children o) ->
  exists t', repr h t' c /\ depth t' < depth t.
Proof.
  destruct t as [|s|d|b|properties_|values_]; cbn [repr];
    try (intros H1 H2; rewrite H1 in H2; injection H2 as <-; intros []).
  - intros (ps & Hp & Hall) Ho HIn. rewrite Hp in Ho. injection Ho as <-.
    cbn [children] in HIn. apply in_map_iff in HIn as (e' & <- & HIn).
    destruct (all2_In_r _ _ _ _ Hall HIn) as (e & He & _ & Hr).
    exists e.2. split; [exact Hr|]. now apply depth_object_child.
  - intros (ps & Hp & Hall) Ho HIn. rewrite Hp in Ho. injection Ho as <-.
    cbn [children] in HIn.
    destruct (all2_In_r _ _ _ _ Hall HIn) as (v & Hv & Hr).
    exists v. split; [exact Hr|]. now apply depth_array_child.
Qed.

(** What a laid out tree owns is laid out as a tree no deeper. *)
Lemma reach_repr h p q :
  reach h p q -> forall t, repr h t p -> exists t', repr h t' q /\ depth t' <= depth t.
Proof.
  induction 1 as [p|p o c q Hp Hc _ IH]; intros t Hr.
  - exists t. auto.
  - destruct (repr_children _ _ _ _ _ Hr Hp Hc) as (tc & Hrc & Hdc).
    destruct (IH _ Hrc) as (t' & Hr' & Hd'). exists t'. split; [exact Hr'|lia].
Qed.

(** A pointer leads to one tree at most. *)
Lemma repr_unique t : forall h p t', repr h t p -> repr h t' p -> t = t'.
Proof.
  induction t as [|s|d|b|properties_ IH|values_ IH] using JsonValue_tree_ind;
    intros h p [|s'|d'|b'|properties_'|values_']; cbn [repr];
    try (intros H1 H2; rewrite H1 in H2; congruence);
    try (intros H1 (ps & H2 & _); rewrite H1 in H2; congruence);
    try (intros (ps & H1 & _) H2; rewrite H1 in H2; congruence);
    try (intros (ps & H1 & _) (ps' & H2 & _); rewrite H1 in H2; congruence).
  - intros (ps & Hp & Hall) (ps' & Hp' & Hall').
    rewrite Hp in Hp'. injection Hp' as <-. f_equal.
    refine (all2_functional _ _ _ _ _ Hall Hall').
    eapply Forall_impl; [exact IH|]. cbn.
    intros [k v] Hv [k' c] [k'' v'] [Hk Hr] [Hk' Hr']. cbn [fst snd] in *.
    subst. f_equal. eapply Hv; eassumption.
  - intros (ps & Hp & Hall) (ps' & Hp' & Hall').
    rewrite Hp in Hp'. injection Hp' as <-. f_equal.
    refine (all2_functional _ _ _ _ _ Hall Hall').
    eapply Forall_impl; [exact IH|]. cbn.
    intros v Hv c v' Hr Hr'. eapply Hv; eassumption.
Qed.

(** A tree stays laid out when the store changes away from what it owns. *)
Lemma repr_frame h h' t : forall p,
  repr h t p -> (forall q, reach h p q -> h' !! q = h !! q) -> repr h' t p.
Proof.
  induction t as [|s|d|b|properties_ IH|values_ IH] using JsonValue_tree_ind;
    intros p Hr Hsame; cbn [repr] in *;
    try (rewrite Hsame by constructor; exact Hr).
  - destruct Hr as (ps & Hp & Hall). exists ps.
    split; [rewrite Hsame by constructor; exact Hp|].
    refine (all2_impl _ _ _ _ _ Hall).
    eapply Forall_impl; [exact IH|]. cbn.
    intros e He e' HIn [Hk Hr]. split; [exact Hk|].
    apply He; [exact Hr|]. intros q Hq. apply Hsame.
    eapply reach_child; [exact Hp| |exact Hq].
    cbn [children]. now apply in_map.
  - destruct Hr as (ps & Hp & Hall). exists ps.
    split; [rewrite Hsame by constructor; exact Hp|].
    refine (all2_impl _ _ _ _ _ Hall).
    eapply Forall_impl; [exact IH|]. cbn.
    intros v Hv c HIn Hr.
    apply Hv; [exact Hr|]. intros q Hq. apply Hsame.
    eapply reach_child; [exact Hp| |exact Hq]. exact HIn.
Qed.

Lemma repr_insert_unreachable h t p r o :
  repr h t p -> ~ reach h p r -> repr (<[r := o]> h) t p.
Proof.
  intros Hr Hnot. apply (repr_frame h); [exact Hr|].
  intros q Hq. apply lookup_insert_ne. intros ->. contradiction.
Qed.

(** A laid out tree does not own its own root: ownership has no cycle. *)
Lemma repr_child_unreachable h T r t c :
  repr h T r -> repr h t c -> depth t < depth T -> ~ reach h c r.
Proof.
  intros HT Ht Hd Hreach.
  destruct (reach_repr _ _ _ Hreach _ Ht) as (t' & Hr' & Hd').
  rewrite (repr_unique _ _ _ _ Hr' HT) in Hd'. lia.
Qed.

Lemma repr_insert_fresh h t p r o :
  repr h t p -> h !! r = None -> repr (<[r := o]> h) t p.
Proof.
  intros Hr Hfresh. apply repr_insert_unreachable; [exact Hr|].
  intros Hreach. destruct (reach_repr _ _ _ Hreach _ Hr) as (t' & Hr' & _).
  now apply repr_allocated in Hr'.
Qed.

End ReprFacts.

Section PlacementFacts.

Lemma at_back_natural : natural UnorderedMap.at_back.
Proof. intros V W f m k v. cbn. now rewrite map_app. Qed.

Lemma at_front_natural : natural UnorderedMap.at_front.
Proof. intros V W f m k v. reflexivity. Qed.

Context {A B : Type} (Q : A -> B -> Prop).

(** Two sequences related entry by entry are the two sides of one
    sequence of pairs. *)
Lemma all2_zipped (m : list (string * A)) (m' : list (string * B)) :
  all2 (keyed Q) m m' ->
  exists z : list (string * (A * B)),
    m = map (fun e => (e.1, fst e.2)) z
    /\ m' = map (fun e => (e.1, snd e.2)) z
    /\ Forall (fun e => Q (fst e.2) (snd e.2)) z.
Proof.
  revert m'. induction m as [|[k a] m IH]; intros [|[k' b] m']; cbn [all2];
    try (intros []; fail).
  - intros _. exists []. repeat split. constructor.
  - intros [[Hk HQ] Hrest]. cbn [fst snd] in Hk, HQ. subst k'.
    destruct (IH _ Hrest) as (z & -> & -> & Hz).
    exists ((k, (a, b)) :: z). repeat split. now constructor.
Qed.

Lemma zipped_all2 (z : list (string * (A * B))) :
  Forall (fun e => Q (fst e.2) (snd e.2)) z ->
  all2 (keyed Q) (map (fun e => (e.1, fst e.2)) z) (map (fun e => (e.1, snd e.2)) z).
Proof.
  induction 1 as [|e z He _ IH]; cbn [map all2]; [trivial|].
  split; [|exact IH]. split; [reflexivity|exact He].
Qed.

Lemma all2_find_None (m : list (string * A)) (m' : list (string * B)) k :
  all2 (keyed Q) m m' -> UnorderedMap.find m k = None <-> UnorderedMap.find m' k = None.
Proof.
  revert m'. induction m as [|[k1 a] m IH]; intros [|[k1' b] m']; cbn [all2];
    try (intros []; fail); [tauto|].
  intros [[Hk _] Hrest]. cbn [fst] in Hk. subst k1'. cbn [UnorderedMap.find].
  destruct (String.eqb k k1); [split; discriminate|]. now apply IH.
Qed.

(** A natural placement places related entries at related positions. *)
Lemma insert_all2 pl (m : list (string * A)) (m' : list (string * B)) k a b :
  natural pl -> all2 (keyed Q) m m' -> Q a b ->
  all2 (keyed Q) (UnorderedMap.insert pl m k a) (UnorderedMap.insert pl m' k b).
Proof.
  intros Hnat Hall HQ. unfold UnorderedMap.insert.
  pose proof (all2_find_None m m' k Hall) as Hnone.
  destruct (UnorderedMap.find m k) as [x|] eqn:E;
    destruct (UnorderedMap.find m' k) as [y|] eqn:E'; trivial;
    try (exfalso; destruct Hnone as [H1 H2];
         (discriminate (H1 eq_refl) || discriminate (H2 eq_refl))).
  destruct (all2_zipped m m' Hall) as (z & -> & -> & Hz).
  pose proof (Hnat _ _ fst z k (a, b)) as H1.
  pose proof (Hnat _ _ snd z k (a, b)) as H2.
  cbn [fst snd] in H1, H2. rewrite H1, H2.
  apply zipped_all2.
  eapply Permutation_Forall.
  - apply Permutation_sym, UnorderedMap.link_perm.
  - now constructor.
Qed.

End PlacementFacts.

(** A loop does not return when the body does not return on one of the
    elements, the bodies before it leaving the state alone. *)
Lemma for_each_stuck {A S} (body : S -> A -> Mem.M S) l x st :
  (forall s y st1 s' st', body s y st1 = Mem.Ret s' st' -> st' = st1) ->
  In x l ->
  (forall s s' st', body s x st <> Mem.Ret s' st') ->
  forall s s' st', Mem.for_each body l s st <> Mem.Ret s' st'.
Proof.
  intros Hpure HIn Hx. induction l as [|a l IH]; [destruct HIn|].
  intros s s' st' (s1 & st1 & H1 & H2)%MemFacts.bind_Ret.
  destruct HIn as [->|HIn].
  - exact (Hx _ _ _ H1).
  - apply Hpure in H1 as E. subst st1. exact (IH HIn _ _ _ H2).
Qed.

Lemma toString_needs_children fuel st this o c :
  Mem.objects st !! this = Some o -> In c (children o) ->
  (forall s st', Mem.toString fuel c st <> Mem.Ret s st') ->
  forall s st', Mem.toString (S fuel) this st <> Mem.Ret s st'.
Proof.
  intros Hp HIn Hc s st' H. cbn [Mem.toString] in H.
  rewrite (bind_returns _ _ _ _ _ (load_returns _ _ _ Hp)) in H.
  destruct o as [|value_|value_|value_|properties_|values_];
    cbn [children] in HIn; try destruct HIn.
  - apply MemFacts.bind_Ret in H as (ss & st1 & Hloop & _).
    apply in_map_iff in HIn as ([key value] & <- & HIn).
    revert Hloop. apply (for_each_stuck _ _ (key, value)); [|exact HIn|].
    + intros ss0 [key0 value0] st2 ss1 st3 (s0 & st4 & Hs & [= _ ->])%MemFacts.bind_Ret.
      now apply MemFacts.toString_state in Hs.
    + intros ss0 ss1 st3 (s0 & st4 & Hs & _)%MemFacts.bind_Ret.
      exact (Hc _ _ Hs).
  - apply MemFacts.bind_Ret in H as (ss & st1 & Hloop & _).
    revert Hloop. apply (for_each_stuck _ _ c); [|exact HIn|].
    + intros ss0 value0 st2 ss1 st3 (s0 & st4 & Hs & [= _ ->])%MemFacts.bind_Ret.
      now apply MemFacts.toString_state in Hs.
    + intros ss0 ss1 st3 (s0 & st4 & Hs & _)%MemFacts.bind_Ret.
      exact (Hc _ _ Hs).
Qed.

Lemma toString_dangling fuel st p s st' :
  Mem.objects st !! p = None -> Mem.toString fuel p st <> Mem.Ret s st'.
Proof.
  intros Hp. destruct fuel as [|fuel]; [discriminate|].
  cbn [Mem.toString]. unfold Mem.bind, Mem.load. rewrite Hp. discriminate.
Qed.

(** X9. On the store, add on an array does what add does on the tree: when
    the receiver holds an array, the pointer passed in leads to a tree,
    and that tree does not own the receiver, the call returns, the
    receiver holds the array with the tree as its new last element, and
    nothing is sent to the output. *)
Theorem store_array_add (st : Mem.state) (this value : Mem.ptr)
    (values_ : list JsonValue) (v : JsonValue) :
  repr (Mem.objects st) (JsonArray values_) this ->
  repr (Mem.objects st) v value ->
  ~ reach (Mem.objects st) value this ->
  exists st',
    Mem.JsonArray_add this value st = Mem.Ret tt st'
    /\ repr (Mem.objects st') (JsonArray (JsonArray_add values_ v)) this
    /\ Mem.cout st' = Mem.cout st.
Proof.
  intros HT Hv Hsep. pose proof HT as (ps & Hp & Hall).
  eexists. split.
  { unfold Mem.JsonArray_add.
    rewrite (bind_returns _ _ _ _ _ (load_returns _ _ _ Hp)). reflexivity. }
  cbn [Mem.objects Mem.cout]. split; [|reflexivity].
  exists (ps ++ [value]). split; [apply lookup_insert_eq|].
  unfold JsonArray_add, push_back. apply all2_app.
  - refine (all2_impl _ _ _ _ _ Hall). apply List.Forall_forall.
    intros child HIn c _ Hr. apply repr_insert_unreachable; [exact Hr|].
    eapply repr_child_unreachable; [exact HT|exact Hr|].
    now apply depth_array_child.
  - cbn [all2]. split; [|trivial]. now apply repr_insert_unreachable.
Qed.

Lemma store_array_add_witness :
  let st := Mem.State {[ 0 := Mem.Array []; 1 := Mem.Str "s3" ]} EmptyString in
  exists st',
    Mem.JsonArray_add 0 1 st = Mem.Ret tt st'
    /\ repr (Mem.objects st') (JsonArray (JsonArray_add [] (JsonString "s3"))) 0
    /\ Mem.cout st' = Mem.cout st.
Proof.
  apply (store_array_add
           (Mem.State {[ 0 := Mem.Array []; 1 := Mem.Str "s3" ]} EmptyString)
           0 1 [] (JsonString "s3")).
  - exists []. split; [vm_compute; reflexivity|exact I].
  - vm_compute. reflexivity.
  - intros H. inversion H as [|p o c q Hp Hc Hq]; subst.
    vm_compute in Hp. injection Hp as <-. destruct Hc.
Defined.

(** X10. On the store, add on an object does what add does on the tree,
    for a placement that looks at keys only: when the receiver holds an
    object, the pointer passed in leads to a tree, and that tree does not
    own the receiver, the call returns and the receiver holds the object
    that add gives on the trees (unchanged when the key was there). *)
Theorem store_object_add (pl : UnorderedMap.placement) (st : Mem.state)
    (this value : Mem.ptr) (name : string)
    (properties_ : list (string * JsonValue)) (v : JsonValue) :
  natural pl ->
  repr (Mem.objects st) (JsonObject properties_) this ->
  repr (Mem.objects st) v value ->
  ~ reach (Mem.objects st) value this ->
  exists st',
    Mem.JsonObject_add pl this name value st = Mem.Ret tt st'
    /\ repr (Mem.objects st') (JsonObject (JsonObject_add pl properties_ name v)) this
    /\ Mem.cout st' = Mem.cout st.
Proof.
  intros Hnat HT Hv Hsep. pose proof HT as (ps & Hp & Hall).
  eexists. split.
  { unfold Mem.JsonObject_add.
    rewrite (bind_returns _ _ _ _ _ (load_returns _ _ _ Hp)). reflexivity. }
  cbn [Mem.objects Mem.cout]. split; [|reflexivity].
  exists (UnorderedMap.insert pl ps name value). split; [apply lookup_insert_eq|].
  unfold JsonObject_add.
  apply (insert_all2 (repr _) pl properties_ ps name v value Hnat).
  - refine (all2_impl _ _ _ _ _ Hall). apply List.Forall_forall.
    intros e HIn e' _ [Hk Hr]. split; [exact Hk|].
    apply repr_insert_unreachable; [exact Hr|].
    eapply repr_child_unreachable; [exact HT|exact Hr|].
    now apply depth_object_child.
  - now apply repr_insert_unreachable.
Qed.

Lemma store_object_add_witness :
  let st := Mem.State {[ 0 := Mem.Object []; 1 := Mem.Null ]} EmptyString in
  natural UnorderedMap.at_back
  /\ exists st',
       Mem.JsonObject_add UnorderedMap.at_back 0 "e" 1 st = Mem.Ret tt st'
       /\ repr (Mem.objects st')
            (JsonObject (JsonObject_add UnorderedMap.at_back [] "e" JsonNull)) 0
       /\ Mem.cout st' = Mem.cout st.
Proof.
  split; [exact at_back_natural|].
  apply (store_object_add UnorderedMap.at_back
           (Mem.State {[ 0 := Mem.Object []; 1 := Mem.Null ]} EmptyString)
           0 1 "e" [] JsonNull at_back_natural).
  - exists []. split; [vm_compute; reflexivity|exact I].
  - vm_compute. reflexivity.
  - intros H. inversion H as [|p o c q Hp Hc Hq]; subst.
    vm_compute in Hp. injection Hp as <-. destruct Hc.
Defined.

(** X11. Nothing stops an array from being added to itself.  The call
    returns, the array then holds a pointer to itself as its last element,
    and from then on toString on it returns within no budget: the
    recursion over the elements does not end. *)
Theorem array_added_to_itself (st : Mem.state) (this : Mem.ptr)
    (values_ : list Mem.ptr) :
  Mem.objects st !! this = Some (Mem.Array values_) ->
  exists st',
    Mem.JsonArray_add this this st = Mem.Ret tt st'
    /\ Mem.objects st' !! this = Some (Mem.Array (values_ ++ [this]))
    /\ forall fuel s st'', Mem.toString fuel this st' <> Mem.Ret s st''.
Proof.
  intros Hp. eexists. split.
  { unfold Mem.JsonArray_add.
    rewrite (bind_returns _ _ _ _ _ (load_returns _ _ _ Hp)). reflexivity. }
  set (st' := Mem.State _ _).
  assert (Hp' : Mem.objects st' !! this = Some (Mem.Array (values_ ++ [this])))
    by apply lookup_insert_eq.
  split; [exact Hp'|].
  induction fuel as [|fuel IH]; [discriminate|].
  apply (toString_needs_children fuel st' this _ this Hp'); [|exact IH].
  cbn [children]. apply in_or_app. right. now left.
Qed.

Lemma array_added_to_itself_witness :
  let st := Mem.State {[ 0 := Mem.Array [] ]} EmptyString in
  Mem.objects st !! 0 = Some (Mem.Array [])
  /\ exists st',
       Mem.JsonArray_add 0 0 st = Mem.Ret tt st'
       /\ forall fuel s st'', Mem.toString fuel 0 st' <> Mem.Ret s st''.
Proof.
  assert (Hp : Mem.objects (Mem.State {[ 0 := Mem.Array [] ]} EmptyString) !! 0
               = Some (Mem.Array [])) by (vm_compute; reflexivity).
  split; [exact Hp|].
  destruct (array_added_to_itself _ 0 [] Hp) as (st' & Hadd & _ & Hnever).
  exists st'. split; [exact Hadd|exact Hnever].
Defined.

(** X12. add does not look at the pointer it is given.  When the pointer
    leads to no object, add on an object under a new key still returns,
    and from then on toString on the object never returns a text. *)
Theorem object_add_pointer_to_nothing (pl : UnorderedMap.placement)
    (st : Mem.state) (this value : Mem.ptr) (name : string)
    (properties_ : list (string * Mem.ptr)) :
  Mem.objects st !! this = Some (Mem.Object properties_) ->
  UnorderedMap.find properties_ name = None ->
  Mem.objects st !! value = None ->
  exists st',
    Mem.JsonObject_add pl this name value st = Mem.Ret tt st'
    /\ forall fuel s st'', Mem.toString fuel this st' <> Mem.Ret s st''.
Proof.
  intros Hp Hfresh Hnone. eexists. split.
  { unfold Mem.JsonObject_add.
    rewrite (bind_returns _ _ _ _ _ (load_returns _ _ _ Hp)). reflexivity. }
  set (st' := Mem.State _ _).
  assert (Hp' : Mem.objects st' !! this =
                Some (Mem.Object (UnorderedMap.insert pl properties_ name value)))
    by apply lookup_insert_eq.
  assert (Hnone' : Mem.objects st' !! value = None).
  { cbn [st' Mem.objects]. rewrite lookup_insert_ne; [exact Hnone|congruence]. }
  intros [|fuel] s st''; [discriminate|].
  apply (toString_needs_children fuel st' this _ value Hp').
  - cbn [children]. apply in_map_iff. exists (name, value). split; [reflexivity|].
    eapply Permutation_in; [apply Permutation_sym, insert_fresh, Hfresh|now left].
  - intros s0 st0. now apply toString_dangling.
Qed.

Lemma object_add_pointer_to_nothing_witness :
  let st := Mem.State {[ 0 := Mem.Object [] ]} EmptyString in
  Mem.objects st !! 0 = Some (Mem.Object [])
  /\ UnorderedMap.find ([] : list (string * Mem.ptr)) "a" = None
  /\ Mem.objects st !! 7 = None
  /\ exists st',
       Mem.JsonObject_add UnorderedMap.at_back 0 "a" 7 st = Mem.Ret tt st'
       /\ forall fuel s st'', Mem.toString fuel 0 st' <> Mem.Ret s st''.
Proof.
  assert (Hp : Mem.objects (Mem.State {[ 0 := Mem.Object [] ]} EmptyString) !! 0
               = Some (Mem.Object [])) by (vm_compute; reflexivity).
  assert (Hn : Mem.objects (Mem.State {[ 0 := Mem.Object [] ]} EmptyString) !! 7
               = None) by (vm_compute; reflexivity).
  split; [exact Hp|]. split; [reflexivity|]. split; [exact Hn|].
  exact (object_add_pointer_to_nothing UnorderedMap.at_back _ 0 7 "a" [] Hp eq_refl Hn).
Defined.

(** * The run of [main] *)

Lemma max_list_le ns d : Forall (fun n => n <= d) ns -> max_list ns <= d.
Proof.
  induction 1 as [|n ns Hn _ IH]; [apply Nat.le_0_l|].
  change (max_list (n :: ns)) with (Nat.max n (max_list ns)). lia.
Qed.

(** A run of add calls, on trees and on pointers to them, leaves entries
    that match one by one, for a placement that looks at keys only. *)
Lemma adds_all2 (Q : JsonValue -> Mem.ptr -> Prop) pl adds adds' :
  natural pl -> all2 (keyed Q) adds adds' ->
  all2 (keyed Q) (JsonObject_adds pl adds) (pointer_adds pl adds').
Proof.
  intros Hnat. unfold JsonObject_adds, pointer_adds, UnorderedMap.empty.
  assert (Hnil : all2 (keyed Q) [] []) by exact I. revert Hnil.
  generalize (@nil (string * JsonValue)) (@nil (string * Mem.ptr)).
  revert adds'. induction adds as [|[k v] adds IH]; intros [|[k' q] adds'] m m' Hm;
    cbn [all2 fold_left]; try (intros []; fail); [trivial|].
  intros [[Hk HQ] Hrest]. cbn [fst snd] in Hk, HQ. subst k'.
  apply IH; [|exact Hrest].
  unfold JsonObject_add_entry, JsonObject_add. cbn [fst snd].
  now apply insert_all2.
Qed.

Lemma adds_Permutation pl (adds : list (string * JsonValue)) :
  List.NoDup (map fst adds) -> Permutation (JsonObject_adds pl adds) adds.
Proof.
  intros Hnd. apply same_find_Permutation;
    [apply JsonObject_adds_NoDup|exact Hnd|apply JsonObject_adds_find].
Qed.

Lemma depth_adds_le pl adds d :
  Forall (fun e : string * JsonValue => depth e.2 <= d) adds ->
  depth (JsonObject (JsonObject_adds pl adds)) <= S d.
Proof.
  intros Hall. cbn [depth]. apply le_n_S, max_list_le.
  apply List.Forall_forall. intros n (e & <- & HIn)%in_map_iff.
  rewrite List.Forall_forall in Hall. apply Hall.
  destruct e as [k v]. apply find_Some_In.
  rewrite <- (JsonObject_adds_find pl).
  apply In_find; [apply JsonObject_adds_NoDup|exact HIn].
Qed.

(** [main], run up to its call of [toString]. *)
Lemma main_reaches_toString pl :
  Mem.main pl Mem.initial =
  Mem.bind (Mem.toString 3 0)
    (fun text => Mem.bind (Mem.print text) (fun _ => Mem.print newline))
    (Mem.State (main_store pl) EmptyString).
Proof.
  unfold Mem.main, Mem.JsonObject_add, main_store, pointer_adds.
  cbn [fold_left fst snd].
  set (ins := @UnorderedMap.insert Mem.ptr pl). clearbody ins.
  set (ts := Mem.toString 3). clearbody ts.
  vm_compute. reflexivity.
Qed.

Lemma main_store_repr pl :
  natural pl ->
  repr (main_store pl) (JsonObject (JsonObject_adds pl (main_root_adds pl))) 0.
Proof.
  intros Hnat.
  exists (pointer_adds pl
            [("a", 1); ("b", 2); ("c", 3); ("d", 4); ("e", 5); ("h", 6); ("i", 9)]).
  split; [reflexivity|].
  apply (adds_all2 (repr (main_store pl)) pl _ _ Hnat).
  unfold main_root_adds. cbn [all2]. unfold keyed. cbn [fst snd repr].
  repeat split; try reflexivity.
  - exists (pointer_adds pl [("f", 7); ("g", 8)]). split; [reflexivity|].
    apply (adds_all2 (repr (main_store pl)) pl _ _ Hnat).
    unfold main_obj_adds. cbn [all2]. unfold keyed. cbn [fst snd repr].
    repeat split; reflexivity.
  - exists [10; 11]. split; [reflexivity|].
    cbn [all2 repr]. repeat split; reflexivity.
Qed.

(** X13. [main] runs to its end and prints one line: the text of an object
    whose entries are the seven that [main] adds to [root], in some order,
    the entry under h being an object with the entries f and g in some
    order.  This holds whatever order the hash table keeps, as long as it
    places entries by their keys. *)
Theorem main_output (pl : UnorderedMap.placement) :
  natural pl ->
  exists (st : Mem.state) (root obj : list (string * JsonValue)),
    Mem.main pl Mem.initial = Mem.Ret tt st
    /\ Permutation obj [("f", JsonString "s2"); ("g", JsonNumber 2.2%float)]
    /\ Permutation root
         [ ("a", JsonString "s1");
           ("b", JsonNumber 1.1%float);
           ("c", JsonBoolean true);
           ("d", JsonBoolean false);
           ("e", JsonNull);
           ("h", JsonObject obj);
           ("i", JsonArray [JsonString "s3"; JsonNumber 3.3%float]) ]
    /\ Mem.cout st = toString (JsonObject root) +:+ newline.
Proof.
  intros Hnat.
  pose proof (main_store_repr pl Hnat) as Hr.
  assert (Hd : depth (JsonObject (JsonObject_adds pl (main_root_adds pl))) < 3).
  { apply Nat.lt_succ_r, depth_adds_le. unfold main_root_adds.
    repeat apply List.Forall_cons; try apply List.Forall_nil; cbn [snd];
      try (cbn; lia).
    apply depth_adds_le. unfold main_obj_adds.
    repeat apply List.Forall_cons; try apply List.Forall_nil; cbn; lia. }
  eexists _, (JsonObject_adds pl (main_root_adds pl)), (JsonObject_adds pl main_obj_adds).
  split; [|split; [|split]].
  - rewrite main_reaches_toString.
    rewrite (bind_returns _ _ _ _ _
               (toString_repr _ (Mem.State (main_store pl) EmptyString) 0 3 Hr Hd)).
    reflexivity.
  - apply adds_Permutation. repeat constructor; cbn; intuition discriminate.
  - apply (adds_Permutation pl (main_root_adds pl)).
    repeat constructor; cbn; intuition discriminate.
  - reflexivity.
Qed.

Lemma main_output_witness :
  natural UnorderedMap.at_back
  /\ exists (st : Mem.state) (root : list (string * JsonValue)),
       Mem.main UnorderedMap.at_back Mem.initial = Mem.Ret tt st
       /\ Mem.cout st = toString (JsonObject root) +:+ newline.
Proof.
  split; [exact at_back_natural|].
  destruct (main_output UnorderedMap.at_back at_back_natural)
    as (st & root & obj & Hrun & _ & _ & Hout).
  exists st, root. split; [exact Hrun|exact Hout].
Defined.

(** * Nesting *)

(** X14. A value nested in a composite is rendered in place by its own
    rule: the text of an array is the text of the elements before the
    value, then the value's own text and a comma, then the text of the
    elements after it, between the brackets; and likewise for the entry
    of an object, with its bare key and a colon in front. *)
Theorem nested_value_in_place :
  (forall (before after : list JsonValue) (value : JsonValue),
     toString (JsonArray (before ++ value :: after)) =
     "[" +:+ flatten (map element_text before)
         +:+ toString value +:+ ","
         +:+ flatten (map element_text after) +:+ "]")
  /\ (forall (before after : list (string * JsonValue)) (key : string) (value : JsonValue),
        toString (JsonObject (before ++ (key, value) :: after)) =
        "{" +:+ flatten (map entry_text before)
            +:+ key +:+ ":" +:+ toString value +:+ ","
            +:+ flatten (map entry_text after) +:+ "}").
Proof.
  split.
  - intros before after value. rewrite toString_JsonArray, map_app, flatten_app.
    cbn [map flatten]. unfold element_text at 2.
    now rewrite !append_assoc.
  - intros before after key value. rewrite toString_JsonObject, map_app, flatten_app.
    cbn [map flatten]. unfold entry_text at 2. cbn [fst snd].
    now rewrite !append_assoc.
Qed.
